(** * Ghost admin: recommendations entity, settings router, labs template

    A shallow embedding of
    - [ghost/recommendations/src/Recommendation.ts] (module [Recommendation]),
    - [apps/admin-x-settings/src/components/providers/RoutingProvider.tsx]
      (module [Routing]),
    - [ghost/admin/app/templates/settings/labs.hbs] (module [Labs]),
    together with the properties proved about them. *)

From Stdlib Require Import List Ascii String ZArith Lia Bool.
Import ListNotations.

(** ** Completions of JavaScript calls

    A call either returns a value or throws.  [E] is the type of thrown
    values. *)

Inductive Completion (E A : Type) : Type :=
| Return (a : A)
| Throw (e : E).
Arguments Return {E A} a.
Arguments Throw {E A} e.

Definition bind {E A B} (c : Completion E A) (k : A -> Completion E B)
  : Completion E B :=
  match c with
  | Return a => k a
  | Throw e => Throw e
  end.

Notation "x <- c ;; k" := (bind c (fun x => k))
  (at level 61, c at next level, right associativity).

(** A property of an object literal that may be missing, present with the
    value [undefined], or present with a value.  [Partial<T>] in TypeScript
    allows all three for every key. *)
Inductive Prop3 (A : Type) : Type :=
| Absent
| Undefined
| Value (a : A).
Arguments Absent {A}.
Arguments Undefined {A}.
Arguments Value {A} a.

(** [key in Object.keys(o) && o[key] !== undefined] *)
Definition specified {A} (p : Prop3 A) : option A :=
  match p with
  | Value a => Some a
  | Absent | Undefined => None
  end.


(** [a ?? b] for an optional [a] *)
Definition nullish {A} (a : option A) (b : A) : A :=
  match a with
  | Some x => x
  | None => b
  end.

(* ================================================================= *)
(** * Recommendation.ts *)

(** The entity is modelled by explicit state passing: a method takes the
    state of [this] and gives back the state after the call together with
    the completion of the call.  [URL] and [Date] objects are modelled by
    their value.  The entity mutates them in place, in [clean] only, that
    is after [validate] has passed; which of them a recommendation shares
    with its caller is decided inside [UnsafeData], a parameter of [create]
    and [edit] below.  A [Date] holds a time value (no invalid dates). *)

Module Recommendation.

Open Scope string_scope.
Open Scope Z_scope.

(** Strings: a Rocq [string] stands for a JavaScript string, one [ascii] per
    UTF-16 code unit; the entity only ever reads [.length]. *)
Definition strlen (s : string) : Z := Z.of_nat (String.length s).

(** A [URL] object, as far as the entity observes it: its [search] and
    [hash] components and everything else. *)
Record URL : Type := mkURL {
  href_rest : string;   (* scheme, authority and path *)
  search : string;
  hash : string
}.

(** A [Date] object holds a time value in milliseconds since the epoch.
    Time-zone offsets are whole seconds, so the millisecond component of the
    local time is the time value modulo 1000. *)
Definition Date : Type := Z.

Definition getMilliseconds (d : Date) : Z := d mod 1000.
Definition setMilliseconds (d : Date) (ms : Z) : Date := d - d mod 1000 + ms.

(** [number]: click and subscriber counts are only stored and copied. *)
Definition number : Type := Z.

(** A value of type [URL|string] handed to [UnsafeData]. *)
Inductive UnsafeValue : Type :=
| UrlObject (u : URL)
| StringValue (s : string).

(** What the entity throws. *)
Inductive Exn : Type :=
| ValidationError (message : string)   (* errors.ValidationError of validate *)
| UnsafeDataThrow (field : string).    (* an exception raised inside UnsafeData *)

Definition Result := Completion Exn.

Module RecommendationPlain.
Record t : Type := mk {
  id : string;
  title : string;
  reason : option string;
  excerpt : option string;
  featuredImage : option URL;
  favicon : option URL;
  url : URL;
  oneClickSubscribe : bool;
  createdAt : Date;
  updatedAt : option Date;
  clickCount : option number;
  subscriberCount : option number
}.
End RecommendationPlain.

Module RecommendationCreateData.
Record t : Type := mk {
  id : option string;
  title : string;
  reason : option string;
  excerpt : option string;
  featuredImage : option UnsafeValue;
  favicon : option UnsafeValue;
  url : UnsafeValue;
  oneClickSubscribe : bool;
  createdAt : option Date;
  updatedAt : option Date;        (* absent, undefined and null coincide under ?? *)
  clickCount : option number;
  subscriberCount : option number
}.
End RecommendationCreateData.

(** [Omit<RecommendationCreateData, 'id'|'createdAt'|'updatedAt'>] *)
Module AddRecommendation.
Record t : Type := mk {
  title : string;
  reason : option string;
  excerpt : option string;
  featuredImage : option UnsafeValue;
  favicon : option UnsafeValue;
  url : UnsafeValue;
  oneClickSubscribe : bool;
  clickCount : option number;
  subscriberCount : option number
}.
End AddRecommendation.

(** [Partial<AddRecommendation>] *)
Module EditRecommendation.
Record t : Type := mk {
  title : Prop3 string;
  reason : Prop3 (option string);
  excerpt : Prop3 (option string);
  featuredImage : Prop3 (option UnsafeValue);
  favicon : Prop3 (option UnsafeValue);
  url : Prop3 UnsafeValue;
  oneClickSubscribe : Prop3 bool;
  clickCount : Prop3 number;
  subscriberCount : Prop3 number
}.
End EditRecommendation.

(** An instance of the class: the ten public fields and the three private
    ones ([#clickCount], [#subscriberCount], [#deleted]). *)
Record Recommendation : Type := mkRecommendation {
  id : string;
  title : string;
  reason : option string;
  excerpt : option string;
  featuredImage : option URL;
  favicon : option URL;
  url : URL;
  oneClickSubscribe : bool;
  createdAt : Date;
  updatedAt : option Date;
  clickCount : option number;
  subscriberCount : option number;
  deleted : bool
}.

(** What [new Date()] and [ObjectId().toString()] yield at the time of a
    call. *)
Record Ambient : Type := mkAmbient {
  new_Date : Date;
  ObjectId_toString : string
}.

(** [private constructor(data: RecommendationPlain)] *)
Definition constructor (data : RecommendationPlain.t) : Recommendation :=
  {| id := RecommendationPlain.id data;
     title := RecommendationPlain.title data;
     reason := RecommendationPlain.reason data;
     excerpt := RecommendationPlain.excerpt data;
     featuredImage := RecommendationPlain.featuredImage data;
     favicon := RecommendationPlain.favicon data;
     url := RecommendationPlain.url data;
     oneClickSubscribe := RecommendationPlain.oneClickSubscribe data;
     createdAt := RecommendationPlain.createdAt data;
     updatedAt := RecommendationPlain.updatedAt data;
     clickCount := RecommendationPlain.clickCount data;
     subscriberCount := RecommendationPlain.subscriberCount data;
     deleted := false |}.

(** Truthiness of a [string|null]: [null] and [''] are falsy. *)
Definition truthy (s : option string) : bool :=
  match s with
  | Some s => negb (strlen s =? 0)
  | None => false
  end.

(** [s.length > 2000] for a [string|null] already known to be truthy *)
Definition too_long (s : option string) : bool :=
  match s with
  | Some s => (2000 <? strlen s)
  | None => false
  end.

(** [static validate(properties: AddRecommendation)] *)
Definition validate (properties : AddRecommendation.t) : Result unit :=
  if (strlen (AddRecommendation.title properties) =? 0) then
    Throw (ValidationError "Title must not be empty")
  else if (2000 <? strlen (AddRecommendation.title properties)) then
    Throw (ValidationError "Title must be less than 2000 characters")
  else if truthy (AddRecommendation.reason properties)
          && too_long (AddRecommendation.reason properties) then
    Throw (ValidationError "Reason must be less than 2000 characters")
  else if truthy (AddRecommendation.excerpt properties)
          && too_long (AddRecommendation.excerpt properties) then
    Throw (ValidationError "Excerpt must be less than 2000 characters")
  else Return tt.

(** [cleanURL(url)]: assigning [''] to [search] and to [hash] empties both. *)
Definition cleanURL (u : URL) : URL :=
  let u := {| href_rest := href_rest u; search := ""; hash := hash u |} in
  {| href_rest := href_rest u; search := search u; hash := "" |}.

Definition set_reason (r : Recommendation) (v : option string) :=
  {| id := id r; title := title r; reason := v; excerpt := excerpt r;
     featuredImage := featuredImage r; favicon := favicon r; url := url r;
     oneClickSubscribe := oneClickSubscribe r; createdAt := createdAt r;
     updatedAt := updatedAt r; clickCount := clickCount r;
     subscriberCount := subscriberCount r; deleted := deleted r |}.

Definition set_url (r : Recommendation) (v : URL) :=
  {| id := id r; title := title r; reason := reason r; excerpt := excerpt r;
     featuredImage := featuredImage r; favicon := favicon r; url := v;
     oneClickSubscribe := oneClickSubscribe r; createdAt := createdAt r;
     updatedAt := updatedAt r; clickCount := clickCount r;
     subscriberCount := subscriberCount r; deleted := deleted r |}.

Definition set_createdAt (r : Recommendation) (v : Date) :=
  {| id := id r; title := title r; reason := reason r; excerpt := excerpt r;
     featuredImage := featuredImage r; favicon := favicon r; url := url r;
     oneClickSubscribe := oneClickSubscribe r; createdAt := v;
     updatedAt := updatedAt r; clickCount := clickCount r;
     subscriberCount := subscriberCount r; deleted := deleted r |}.

Definition set_updatedAt (r : Recommendation) (v : option Date) :=
  {| id := id r; title := title r; reason := reason r; excerpt := excerpt r;
     featuredImage := featuredImage r; favicon := favicon r; url := url r;
     oneClickSubscribe := oneClickSubscribe r; createdAt := createdAt r;
     updatedAt := v; clickCount := clickCount r;
     subscriberCount := subscriberCount r; deleted := deleted r |}.

Definition set_deleted (r : Recommendation) (v : bool) :=
  {| id := id r; title := title r; reason := reason r; excerpt := excerpt r;
     featuredImage := featuredImage r; favicon := favicon r; url := url r;
     oneClickSubscribe := oneClickSubscribe r; createdAt := createdAt r;
     updatedAt := updatedAt r; clickCount := clickCount r;
     subscriberCount := subscriberCount r; deleted := v |}.

(** [clean()] *)
Definition clean (this : Recommendation) : Recommendation :=
  let this :=
    match reason this with
    | Some s => if (strlen s =? 0) then set_reason this None else this
    | None => this
    end in
  let this := set_url this (cleanURL (url this)) in
  let this := set_createdAt this (setMilliseconds (createdAt this) 0) in
  match updatedAt this with
  | Some u => set_updatedAt this (Some (setMilliseconds u 0))
  | None => this
  end.

(** [get plain()] *)
Definition plain (this : Recommendation) : RecommendationPlain.t :=
  {| RecommendationPlain.id := id this;
     RecommendationPlain.title := title this;
     RecommendationPlain.reason := reason this;
     RecommendationPlain.excerpt := excerpt this;
     RecommendationPlain.featuredImage := featuredImage this;
     RecommendationPlain.favicon := favicon this;
     RecommendationPlain.url := url this;
     RecommendationPlain.oneClickSubscribe := oneClickSubscribe this;
     RecommendationPlain.createdAt := createdAt this;
     RecommendationPlain.updatedAt := updatedAt this;
     RecommendationPlain.clickCount := clickCount this;
     RecommendationPlain.subscriberCount := subscriberCount this |}.

(** [delete()] *)
Definition delete (this : Recommendation) : Recommendation :=
  set_deleted this true.

(** A [RecommendationPlain] read at the type [AddRecommendation], as
    [validate(d)] does inside [create]: the URL objects are [URL|string]
    values. *)
Definition as_AddRecommendation (d : RecommendationPlain.t)
  : AddRecommendation.t :=
  {| AddRecommendation.title := RecommendationPlain.title d;
     AddRecommendation.reason := RecommendationPlain.reason d;
     AddRecommendation.excerpt := RecommendationPlain.excerpt d;
     AddRecommendation.featuredImage :=
       option_map UrlObject (RecommendationPlain.featuredImage d);
     AddRecommendation.favicon :=
       option_map UrlObject (RecommendationPlain.favicon d);
     AddRecommendation.url := UrlObject (RecommendationPlain.url d);
     AddRecommendation.oneClickSubscribe :=
       RecommendationPlain.oneClickSubscribe d;
     AddRecommendation.clickCount := RecommendationPlain.clickCount d;
     AddRecommendation.subscriberCount :=
       RecommendationPlain.subscriberCount d |}.

(** A [RecommendationPlain] read at the type [RecommendationCreateData], as
    [edit] does with [this.plain]. *)
Definition as_CreateData (d : RecommendationPlain.t)
  : RecommendationCreateData.t :=
  {| RecommendationCreateData.id := Some (RecommendationPlain.id d);
     RecommendationCreateData.title := RecommendationPlain.title d;
     RecommendationCreateData.reason := RecommendationPlain.reason d;
     RecommendationCreateData.excerpt := RecommendationPlain.excerpt d;
     RecommendationCreateData.featuredImage :=
       option_map UrlObject (RecommendationPlain.featuredImage d);
     RecommendationCreateData.favicon :=
       option_map UrlObject (RecommendationPlain.favicon d);
     RecommendationCreateData.url := UrlObject (RecommendationPlain.url d);
     RecommendationCreateData.oneClickSubscribe :=
       RecommendationPlain.oneClickSubscribe d;
     RecommendationCreateData.createdAt :=
       Some (RecommendationPlain.createdAt d);
     RecommendationCreateData.updatedAt := RecommendationPlain.updatedAt d;
     RecommendationCreateData.clickCount := RecommendationPlain.clickCount d;
     RecommendationCreateData.subscriberCount :=
       RecommendationPlain.subscriberCount d |}.

(** An [AddRecommendation] passed where [RecommendationCreateData] is
    expected: [id], [createdAt] and [updatedAt] are missing. *)
Definition CreateData_of_Add (a : AddRecommendation.t)
  : RecommendationCreateData.t :=
  {| RecommendationCreateData.id := None;
     RecommendationCreateData.title := AddRecommendation.title a;
     RecommendationCreateData.reason := AddRecommendation.reason a;
     RecommendationCreateData.excerpt := AddRecommendation.excerpt a;
     RecommendationCreateData.featuredImage := AddRecommendation.featuredImage a;
     RecommendationCreateData.favicon := AddRecommendation.favicon a;
     RecommendationCreateData.url := AddRecommendation.url a;
     RecommendationCreateData.oneClickSubscribe :=
       AddRecommendation.oneClickSubscribe a;
     RecommendationCreateData.createdAt := None;
     RecommendationCreateData.updatedAt := None;
     RecommendationCreateData.clickCount := AddRecommendation.clickCount a;
     RecommendationCreateData.subscriberCount :=
       AddRecommendation.subscriberCount a |}.

(** The loop of [edit] over [Object.keys(properties)]: every key whose value
    is not [undefined] overwrites the key of [newProperties].  The keys are
    distinct, so the order of the assignments is immaterial. *)
Definition assign_specified (newProperties : RecommendationCreateData.t)
    (properties : EditRecommendation.t) : RecommendationCreateData.t :=
  let pick {A} (p : Prop3 A) (old : A) : A := nullish (specified p) old in
  {| RecommendationCreateData.id := RecommendationCreateData.id newProperties;
     RecommendationCreateData.title :=
       pick (EditRecommendation.title properties)
            (RecommendationCreateData.title newProperties);
     RecommendationCreateData.reason :=
       pick (EditRecommendation.reason properties)
            (RecommendationCreateData.reason newProperties);
     RecommendationCreateData.excerpt :=
       pick (EditRecommendation.excerpt properties)
            (RecommendationCreateData.excerpt newProperties);
     RecommendationCreateData.featuredImage :=
       pick (EditRecommendation.featuredImage properties)
            (RecommendationCreateData.featuredImage newProperties);
     RecommendationCreateData.favicon :=
       pick (EditRecommendation.favicon properties)
            (RecommendationCreateData.favicon newProperties);
     RecommendationCreateData.url :=
       pick (EditRecommendation.url properties)
            (RecommendationCreateData.url newProperties);
     RecommendationCreateData.oneClickSubscribe :=
       pick (EditRecommendation.oneClickSubscribe properties)
            (RecommendationCreateData.oneClickSubscribe newProperties);
     RecommendationCreateData.createdAt :=
       RecommendationCreateData.createdAt newProperties;
     RecommendationCreateData.updatedAt :=
       RecommendationCreateData.updatedAt newProperties;
     RecommendationCreateData.clickCount :=
       match specified (EditRecommendation.clickCount properties) with
       | Some n => Some n
       | None => RecommendationCreateData.clickCount newProperties
       end;
     RecommendationCreateData.subscriberCount :=
       match specified (EditRecommendation.subscriberCount properties) with
       | Some n => Some n
       | None => RecommendationCreateData.subscriberCount newProperties
       end |}.

(** [newProperties.updatedAt = new Date()] *)
Definition with_updatedAt (d : RecommendationCreateData.t) (now : Date)
  : RecommendationCreateData.t :=
  {| RecommendationCreateData.id := RecommendationCreateData.id d;
     RecommendationCreateData.title := RecommendationCreateData.title d;
     RecommendationCreateData.reason := RecommendationCreateData.reason d;
     RecommendationCreateData.excerpt := RecommendationCreateData.excerpt d;
     RecommendationCreateData.featuredImage :=
       RecommendationCreateData.featuredImage d;
     RecommendationCreateData.favicon := RecommendationCreateData.favicon d;
     RecommendationCreateData.url := RecommendationCreateData.url d;
     RecommendationCreateData.oneClickSubscribe :=
       RecommendationCreateData.oneClickSubscribe d;
     RecommendationCreateData.createdAt := RecommendationCreateData.createdAt d;
     RecommendationCreateData.updatedAt := Some now;
     RecommendationCreateData.clickCount := RecommendationCreateData.clickCount d;
     RecommendationCreateData.subscriberCount :=
       RecommendationCreateData.subscriberCount d |}.

(** [Object.assign(this, created)] copies the own enumerable properties of
    [created], the ten public fields; private fields are not properties and
    stay those of [this]. *)
Definition Object_assign (this created : Recommendation) : Recommendation :=
  {| id := id created; title := title created; reason := reason created;
     excerpt := excerpt created; featuredImage := featuredImage created;
     favicon := favicon created; url := url created;
     oneClickSubscribe := oneClickSubscribe created;
     createdAt := createdAt created; updatedAt := updatedAt created;
     clickCount := clickCount this;
     subscriberCount := subscriberCount this;
     deleted := deleted this |}.

(** A small implementation of the two accessors of [UnsafeData], used to
    run [create] and [edit] on concrete inputs: a [URL] object is handed
    back, [null] stays [null], and a string is accepted when it starts with
    [https://] and has neither query nor fragment. *)
Fixpoint plain_href (s : string) : bool :=
  match s with
  | EmptyString => true
  | String c s' =>
      negb (Ascii.eqb c "?"%char) && negb (Ascii.eqb c "#"%char) && plain_href s'
  end.

Definition sample_url (field : string) (v : UnsafeValue) : option URL :=
  match v with
  | UrlObject u => Some u
  | StringValue s =>
      if String.prefix "https://" s && plain_href s
      then Some {| href_rest := s; search := ""; hash := "" |}
      else None
  end.

Definition sample_nullable_url (field : string) (v : option UnsafeValue)
  : option (option URL) :=
  match v with
  | None => Some None
  | Some v => option_map Some (sample_url field v)
  end.

(** Concrete inputs on which the entity is run below. *)
Definition sample_ambient : Ambient :=
  {| new_Date := 1698765432123; ObjectId_toString := "650a1b2c3d4e5f6a7b8c9d0e" |}.

Definition later_ambient : Ambient :=
  {| new_Date := 1698769999999; ObjectId_toString := "650a1b2c3d4e5f6a7b8c9d0f" |}.

Definition sample_data : RecommendationCreateData.t :=
  {| RecommendationCreateData.id := None;
     RecommendationCreateData.title := "Ghost";
     RecommendationCreateData.reason := Some "";
     RecommendationCreateData.excerpt := None;
     RecommendationCreateData.featuredImage := None;
     RecommendationCreateData.favicon :=
       Some (StringValue "https://ghost.org/favicon.ico");
     RecommendationCreateData.url :=
       UrlObject {| href_rest := "https://ghost.org/";
                    search := "?ref=a"; hash := "#top" |};
     RecommendationCreateData.oneClickSubscribe := true;
     RecommendationCreateData.createdAt := None;
     RecommendationCreateData.updatedAt := None;
     RecommendationCreateData.clickCount := Some 3;
     RecommendationCreateData.subscriberCount := None |}.

Definition sample_created : Recommendation :=
  {| id := "650a1b2c3d4e5f6a7b8c9d0e";
     title := "Ghost";
     reason := None;
     excerpt := None;
     featuredImage := None;
     favicon := Some {| href_rest := "https://ghost.org/favicon.ico";
                        search := ""; hash := "" |};
     url := {| href_rest := "https://ghost.org/"; search := ""; hash := "" |};
     oneClickSubscribe := true;
     createdAt := 1698765432000;
     updatedAt := None;
     clickCount := Some 3;
     subscriberCount := None;
     deleted := false |}.

Definition sample_edit : EditRecommendation.t :=
  {| EditRecommendation.title := Value "Ghost 2";
     EditRecommendation.reason := Undefined;
     EditRecommendation.excerpt := Absent;
     EditRecommendation.featuredImage := Absent;
     EditRecommendation.favicon := Undefined;
     EditRecommendation.url := Absent;
     EditRecommendation.oneClickSubscribe := Value false;
     EditRecommendation.clickCount := Value 7;
     EditRecommendation.subscriberCount := Absent |}.

Definition sample_edited : Recommendation :=
  {| id := "650a1b2c3d4e5f6a7b8c9d0e";
     title := "Ghost 2";
     reason := None;
     excerpt := None;
     featuredImage := None;
     favicon := Some {| href_rest := "https://ghost.org/favicon.ico";
                        search := ""; hash := "" |};
     url := {| href_rest := "https://ghost.org/"; search := ""; hash := "" |};
     oneClickSubscribe := false;
     createdAt := 1698765432000;
     updatedAt := Some 1698769999000;
     clickCount := Some 3;
     subscriberCount := None;
     deleted := false |}.

(** An edit that empties the title. *)
Definition emptying_edit : EditRecommendation.t :=
  {| EditRecommendation.title := Value "";
     EditRecommendation.reason := Value (Some "because");
     EditRecommendation.excerpt := Absent;
     EditRecommendation.featuredImage := Absent;
     EditRecommendation.favicon := Absent;
     EditRecommendation.url := Absent;
     EditRecommendation.oneClickSubscribe := Absent;
     EditRecommendation.clickCount := Absent;
     EditRecommendation.subscriberCount := Absent |}.


(** [c.repeat(n)] *)
Fixpoint repeat_char (c : ascii) (n : nat) : string :=
  match n with
  | O => EmptyString
  | S n => String c (repeat_char c n)
  end.

Definition add_with (title : string) (reason excerpt : option string)
  : AddRecommendation.t :=
  {| AddRecommendation.title := title;
     AddRecommendation.reason := reason;
     AddRecommendation.excerpt := excerpt;
     AddRecommendation.featuredImage := None;
     AddRecommendation.favicon := None;
     AddRecommendation.url := StringValue "https://ghost.org/";
     AddRecommendation.oneClickSubscribe := false;
     AddRecommendation.clickCount := None;
     AddRecommendation.subscriberCount := None |}.

Section WithUnsafeData.

(** [UnsafeData.ts] is imported by the entity.  Its two accessors used by
    [create] are parameters: [new UnsafeData(v, {field}).url] and
    [new UnsafeData(v, {field}).nullable.url], [None] when the accessor
    throws. *)
Variable UnsafeData_url : string -> UnsafeValue -> option URL.
Variable UnsafeData_nullable_url :
  string -> option UnsafeValue -> option (option URL).

Definition unsafe {A} (field : string) (o : option A) : Result A :=
  match o with
  | Some a => Return a
  | None => Throw (UnsafeDataThrow field)
  end.

(** [static create(data: RecommendationCreateData)] *)
Definition create (amb : Ambient) (data : RecommendationCreateData.t)
  : Result Recommendation :=
  let id := nullish (RecommendationCreateData.id data) (ObjectId_toString amb) in
  featuredImage <- unsafe "featuredImage"
      (UnsafeData_nullable_url "featuredImage"
         (RecommendationCreateData.featuredImage data)) ;;
  favicon <- unsafe "favicon"
      (UnsafeData_nullable_url "favicon"
         (RecommendationCreateData.favicon data)) ;;
  url <- unsafe "url"
      (UnsafeData_url "url" (RecommendationCreateData.url data)) ;;
  let d :=
    {| RecommendationPlain.id := id;
       RecommendationPlain.title := RecommendationCreateData.title data;
       RecommendationPlain.reason := RecommendationCreateData.reason data;
       RecommendationPlain.excerpt := RecommendationCreateData.excerpt data;
       RecommendationPlain.featuredImage := featuredImage;
       RecommendationPlain.favicon := favicon;
       RecommendationPlain.url := url;
       RecommendationPlain.oneClickSubscribe :=
         RecommendationCreateData.oneClickSubscribe data;
       RecommendationPlain.createdAt :=
         nullish (RecommendationCreateData.createdAt data) (new_Date amb);
       RecommendationPlain.updatedAt := RecommendationCreateData.updatedAt data;
       RecommendationPlain.clickCount :=
         RecommendationCreateData.clickCount data;
       RecommendationPlain.subscriberCount :=
         RecommendationCreateData.subscriberCount data |} in
  _ <- validate (as_AddRecommendation d) ;;
  let recommendation := constructor d in
  Return (clean recommendation).

(** The properties [edit] hands to [create]. *)
Definition newProperties_of (amb : Ambient) (this : Recommendation)
    (properties : EditRecommendation.t) : RecommendationCreateData.t :=
  with_updatedAt (assign_specified (as_CreateData (plain this)) properties)
                 (new_Date amb).

(** [edit(properties: EditRecommendation)]: the completion of the call and
    the state of [this] after it. *)
Definition edit (amb : Ambient) (this : Recommendation)
    (properties : EditRecommendation.t) : Result unit * Recommendation :=
  match create amb (newProperties_of amb this properties) with
  | Return created => (Return tt, Object_assign this created)
  | Throw e => (Throw e, this)
  end.

(** *** The validation conditions, in the words of the specification *)

(** The title is empty, or longer than 2000 characters, or the reason is
    non-null, non-empty and longer than 2000 characters, or the excerpt is. *)
Definition over_limit (o : option string) : Prop :=
  exists s, o = Some s /\ s <> "" /\ strlen s > 2000.

Definition violates (title : string) (reason excerpt : option string) : Prop :=
  strlen title = 0 \/ strlen title > 2000
  \/ over_limit reason \/ over_limit excerpt.

Definition violates_Add (p : AddRecommendation.t) : Prop :=
  violates (AddRecommendation.title p) (AddRecommendation.reason p)
           (AddRecommendation.excerpt p).

(** A [string|null] that is null or at most 2000 characters long. *)
Definition fits (o : option string) : Prop :=
  forall s, o = Some s -> strlen s <= 2000.

(** [UnsafeData] accepts the three URL inputs of [data]. *)
Definition coerces (data : RecommendationCreateData.t) : Prop :=
  UnsafeData_nullable_url "featuredImage"
    (RecommendationCreateData.featuredImage data) <> None
  /\ UnsafeData_nullable_url "favicon"
    (RecommendationCreateData.favicon data) <> None
  /\ UnsafeData_url "url" (RecommendationCreateData.url data) <> None.

(** [UnsafeData] hands back the [URL] object, or the [null], it is given. *)
Definition passes_URL_objects : Prop :=
  (forall f u, UnsafeData_url f (UrlObject u) = Some u)
  /\ (forall f u, UnsafeData_nullable_url f (Some (UrlObject u)) = Some (Some u))
  /\ (forall f, UnsafeData_nullable_url f None = Some None).

(** The normal form [clean] establishes. *)
Definition normalised (r : Recommendation) : Prop :=
  search (url r) = "" /\ hash (url r) = ""
  /\ reason r <> Some ""
  /\ getMilliseconds (createdAt r) = 0
  /\ (forall u, updatedAt r = Some u -> getMilliseconds u = 0).

(** An edit that gives no URL as a string: the URL fields are left alone,
    set to [null] or set to [URL] objects. *)
Definition no_URL_strings (properties : EditRecommendation.t) : Prop :=
  (forall s, EditRecommendation.featuredImage properties
             <> Value (Some (StringValue s)))
  /\ (forall s, EditRecommendation.favicon properties
                <> Value (Some (StringValue s)))
  /\ (forall s, EditRecommendation.url properties <> Value (StringValue s)).

(** *** Further notions on recommendations *)

(** The limits [validate] enforces, read on a recommendation. *)
Definition within_limits (r : Recommendation) : Prop :=
  ~ violates (title r) (reason r) (excerpt r).

(** What [clean] makes of a reason. *)
Definition clean_reason (o : option string) : option string :=
  match o with
  | Some s => if strlen s =? 0 then None else Some s
  | None => None
  end.

(** [d.setMilliseconds(0)] on a [Date|null] *)
Definition floor_seconds (o : option Date) : option Date :=
  option_map (fun d => setMilliseconds d 0) o.



(** *** Lemmas on strings and dates *)

Lemma strlen_zero s : strlen s = 0 <-> s = "".
Proof.
  unfold strlen. destruct s as [|c s]; simpl; split; intro H;
    try reflexivity; try discriminate; lia.
Qed.

Lemma getMilliseconds_setMilliseconds d :
  getMilliseconds (setMilliseconds d 0) = 0.
Proof.
  unfold getMilliseconds, setMilliseconds.
  rewrite Z.add_0_r.
  rewrite (Z.div_mod d 1000) at 1 by lia.
  replace (1000 * (d / 1000) + d mod 1000 - d mod 1000)
    with ((d / 1000) * 1000) by lia.
  apply Z.mod_mul. lia.
Qed.

Lemma setMilliseconds_fixed d :
  getMilliseconds d = 0 -> setMilliseconds d 0 = d.
Proof. unfold getMilliseconds, setMilliseconds. lia. Qed.

(** *** validate *)

Lemma truthy_too_long o :
  truthy o && too_long o = true <-> over_limit o.
Proof.
  unfold over_limit. destruct o as [s|]; simpl.
  - rewrite andb_true_iff, negb_true_iff, Z.eqb_neq, Z.ltb_lt.
    split.
    + intros [Hne Hlt]. exists s. repeat split; try lia.
      intro Hs. apply Hne. now apply strlen_zero.
    + intros (s' & Heq & Hne & Hlt). inversion Heq; subst s'.
      split; [|lia]. intro Hz. apply Hne. now apply strlen_zero.
  - split; [discriminate|]. intros (s & Heq & _). discriminate.
Qed.

Lemma truthy_too_long_false o :
  truthy o && too_long o = false <-> ~ over_limit o.
Proof.
  rewrite <- truthy_too_long. destruct (truthy o && too_long o);
    split; intro H; try reflexivity; try discriminate; congruence.
Qed.

Lemma validate_Throw p e :
  validate p = Throw e -> violates_Add p /\ exists m, e = ValidationError m.
Proof.
  unfold validate, violates_Add, violates.
  destruct (strlen (AddRecommendation.title p) =? 0) eqn:H0.
  { intro H. inversion H. apply Z.eqb_eq in H0. eauto. }
  destruct (2000 <? strlen (AddRecommendation.title p)) eqn:H1.
  { intro H. inversion H. apply Z.ltb_lt in H1. split; [right; left; lia|eauto]. }
  destruct (truthy (AddRecommendation.reason p)
            && too_long (AddRecommendation.reason p)) eqn:H2.
  { intro H. inversion H. apply truthy_too_long in H2. eauto 6. }
  destruct (truthy (AddRecommendation.excerpt p)
            && too_long (AddRecommendation.excerpt p)) eqn:H3.
  { intro H. inversion H. apply truthy_too_long in H3. eauto 6. }
  discriminate.
Qed.

Lemma validate_Return p :
  validate p = Return tt <-> ~ violates_Add p.
Proof.
  unfold validate, violates_Add, violates.
  destruct (strlen (AddRecommendation.title p) =? 0) eqn:H0.
  { apply Z.eqb_eq in H0. split; [discriminate|]. intro H. exfalso. auto. }
  destruct (2000 <? strlen (AddRecommendation.title p)) eqn:H1.
  { apply Z.ltb_lt in H1. split; [discriminate|]. intro H. exfalso.
    apply H. right; left; lia. }
  apply Z.eqb_neq in H0. apply Z.ltb_ge in H1.
  destruct (truthy (AddRecommendation.reason p)
            && too_long (AddRecommendation.reason p)) eqn:H2.
  { apply truthy_too_long in H2. split; [discriminate|]. intro H. exfalso. auto. }
  destruct (truthy (AddRecommendation.excerpt p)
            && too_long (AddRecommendation.excerpt p)) eqn:H3.
  { apply truthy_too_long in H3. split; [discriminate|]. intro H. exfalso. auto. }
  apply truthy_too_long_false in H2, H3.
  split; [|reflexivity]. intros _ [H|[H|[H|H]]]; auto; lia.
Qed.


Lemma fits_not_over_limit o : fits o -> ~ over_limit o.
Proof.
  intros Hf (s & Heq & _ & Hlt). specialize (Hf s Heq). lia.
Qed.

(** *** create *)

Lemma create_inv amb data r :
  create amb data = Return r ->
  exists fi fa u,
    UnsafeData_nullable_url "featuredImage"
      (RecommendationCreateData.featuredImage data) = Some fi
    /\ UnsafeData_nullable_url "favicon"
      (RecommendationCreateData.favicon data) = Some fa
    /\ UnsafeData_url "url" (RecommendationCreateData.url data) = Some u
    /\ ~ violates (RecommendationCreateData.title data)
         (RecommendationCreateData.reason data)
         (RecommendationCreateData.excerpt data)
    /\ r = clean (constructor
        {| RecommendationPlain.id :=
             nullish (RecommendationCreateData.id data) (ObjectId_toString amb);
           RecommendationPlain.title := RecommendationCreateData.title data;
           RecommendationPlain.reason := RecommendationCreateData.reason data;
           RecommendationPlain.excerpt := RecommendationCreateData.excerpt data;
           RecommendationPlain.featuredImage := fi;
           RecommendationPlain.favicon := fa;
           RecommendationPlain.url := u;
           RecommendationPlain.oneClickSubscribe :=
             RecommendationCreateData.oneClickSubscribe data;
           RecommendationPlain.createdAt :=
             nullish (RecommendationCreateData.createdAt data) (new_Date amb);
           RecommendationPlain.updatedAt :=
             RecommendationCreateData.updatedAt data;
           RecommendationPlain.clickCount :=
             RecommendationCreateData.clickCount data;
           RecommendationPlain.subscriberCount :=
             RecommendationCreateData.subscriberCount data |}).
Proof.
  unfold create.
  destruct (UnsafeData_nullable_url "featuredImage" _) as [fi|]; [|discriminate].
  destruct (UnsafeData_nullable_url "favicon" _) as [fa|]; [|discriminate].
  destruct (UnsafeData_url "url" _) as [u|]; [|discriminate].
  cbn [unsafe bind].
  match goal with |- context [validate ?d] => destruct (validate d) as [[]|e] eqn:Hv end;
    cbn [bind]; [|discriminate].
  intro H. inversion H; subst r. clear H.
  exists fi, fa, u. repeat split; try reflexivity.
  apply validate_Return in Hv. exact Hv.
Qed.


Lemma create_Throw_not_coerced amb data e :
  create amb data = Throw e ->
  (exists m, e = ValidationError m) \/ ~ coerces data.
Proof.
  unfold coerces, create.
  destruct (UnsafeData_nullable_url "featuredImage" _) as [fi|];
    [|intros _; right; intros (H & _); congruence].
  destruct (UnsafeData_nullable_url "favicon" _) as [fa|];
    [|intros _; right; intros (_ & H & _); congruence].
  destruct (UnsafeData_url "url" _) as [u|];
    [|intros _; right; intros (_ & _ & H); congruence].
  cbn [unsafe bind].
  match goal with |- context [validate ?d] =>
    destruct (validate d) as [[]|e'] eqn:Hv end; cbn [bind]; [discriminate|].
  intro H. inversion H; subst e'. left.
  apply validate_Throw in Hv. tauto.
Qed.

Lemma clean_normalised r : normalised (clean r).
Proof.
  unfold normalised, clean.
  destruct r as [i t re ex fi fa u o c up cc sc de]. cbn.
  assert (Hre : forall x : Recommendation,
             reason x <> Some "" ->
             reason (match updatedAt x with
                     | Some u0 => set_updatedAt x (Some (setMilliseconds u0 0))
                     | None => x end) <> Some "").
  { intros x Hx. destruct (updatedAt x); exact Hx. }
  destruct re as [s|]; [destruct (strlen s =? 0) eqn:Hs|]; cbn;
    destruct up as [up|]; cbn; repeat split;
    try apply getMilliseconds_setMilliseconds;
    try discriminate.
  all: try (intros u0 Hu0; inversion Hu0; apply getMilliseconds_setMilliseconds).
  all: try (intro Heq; inversion Heq; subst s; discriminate).
Qed.

Lemma clean_fixed r : normalised r -> clean r = r.
Proof.
  unfold normalised, clean.
  destruct r as [i t re ex fi fa [hr se ha] o c up cc sc de]. cbn.
  intros (Hse & Hha & Hre & Hc & Hup). subst se ha.
  assert (Hre' : match re with
                 | Some s => if strlen s =? 0 then None else re
                 | None => re end = re).
  { destruct re as [s|]; [|reflexivity].
    destruct (strlen s =? 0) eqn:Hs; [|reflexivity].
    apply Z.eqb_eq, strlen_zero in Hs. subst s. congruence. }
  destruct re as [s|]; [destruct (strlen s =? 0) eqn:Hs|]; cbn;
    try (exfalso; discriminate);
    unfold set_updatedAt, set_createdAt, set_url, set_reason, cleanURL; cbn;
    rewrite (setMilliseconds_fixed c Hc);
    destruct up as [up|]; cbn;
    try rewrite (setMilliseconds_fixed up (Hup up eq_refl)); reflexivity.
Qed.

Lemma create_normalised amb data r :
  create amb data = Return r -> normalised r.
Proof.
  intro H. apply create_inv in H.
  destruct H as (fi & fa & u & _ & _ & _ & _ & ->). apply clean_normalised.
Qed.


Lemma coerces_edit amb this properties :
  passes_URL_objects ->
  (forall s, EditRecommendation.featuredImage properties
             <> Value (Some (StringValue s))) ->
  (forall s, EditRecommendation.favicon properties
             <> Value (Some (StringValue s))) ->
  (forall s, EditRecommendation.url properties <> Value (StringValue s)) ->
  coerces (newProperties_of amb this properties).
Proof.
  intros (Hu & Hn & Hnull) Hfi Hfa Hurl. unfold coerces. cbn.
  repeat split.
  - destruct (EditRecommendation.featuredImage properties) as [| |[[u|s]|]];
      cbn; try (destruct (featuredImage this); cbn);
      rewrite ?Hn, ?Hnull; try discriminate;
      exfalso; now apply (Hfi s).
  - destruct (EditRecommendation.favicon properties) as [| |[[u|s]|]];
      cbn; try (destruct (favicon this); cbn);
      rewrite ?Hn, ?Hnull; try discriminate;
      exfalso; now apply (Hfa s).
  - destruct (EditRecommendation.url properties) as [| |[u|s]];
      cbn; rewrite ?Hu; try discriminate.
    exfalso. now apply (Hurl s).
Qed.

(** *** The properties *)


(** C8. [validate] accepts a title of exactly 2000 characters: only
    lengths above 2000 are rejected, with the message
    'Title must be less than 2000 characters'.  Likewise a reason or an
    excerpt of exactly 2000 characters is accepted. *)
Theorem validate_accepts_boundary :
  (forall p, strlen (AddRecommendation.title p) = 2000 ->
     fits (AddRecommendation.reason p) -> fits (AddRecommendation.excerpt p) ->
     validate p = Return tt)
  /\ (forall p, strlen (AddRecommendation.title p) > 2000 ->
     validate p = Throw (ValidationError "Title must be less than 2000 characters"))
  /\ (forall p s, 0 < strlen (AddRecommendation.title p) <= 2000 ->
     AddRecommendation.reason p = Some s -> strlen s = 2000 ->
     fits (AddRecommendation.excerpt p) -> validate p = Return tt)
  /\ (forall p s, 0 < strlen (AddRecommendation.title p) <= 2000 ->
     fits (AddRecommendation.reason p) ->
     AddRecommendation.excerpt p = Some s -> strlen s = 2000 ->
     validate p = Return tt).
Proof.
  repeat split.
  - intros p Ht Hr He. apply validate_Return.
    intros [H|[H|[H|H]]]; try lia;
      [exact (fits_not_over_limit _ Hr H) | exact (fits_not_over_limit _ He H)].
  - intros p Ht. unfold validate.
    destruct (strlen (AddRecommendation.title p) =? 0) eqn:H0.
    { apply Z.eqb_eq in H0. lia. }
    destruct (2000 <? strlen (AddRecommendation.title p)) eqn:H1; [reflexivity|].
    apply Z.ltb_ge in H1. lia.
  - intros p s Ht Hs Hl He. apply validate_Return.
    intros [H|[H|[H|H]]]; try lia.
    + destruct H as (s' & Heq & _ & Hlt).
      rewrite Hs in Heq; inversion Heq; subst; lia.
    + exact (fits_not_over_limit _ He H).
  - intros p s Ht Hr Hs Hl. apply validate_Return.
    intros [H|[H|[H|H]]]; try lia.
    + exact (fits_not_over_limit _ Hr H).
    + destruct H as (s' & Heq & _ & Hlt).
      rewrite Hs in Heq; inversion Heq; subst; lia.
Qed.


(** C3. Edit re-validates and is atomic on failure.  When the properties
    [edit] hands to [create] (those of the recommendation overridden by the
    specified ones) violate the limits, [edit] throws; the exception is the
    [ValidationError] of [validate] once [UnsafeData] has accepted the three
    URL inputs, which it does for every edit that gives no URL as a string
    when it hands back the [URL] objects it is given.  Whenever [edit]
    throws, every field of the recommendation, [updatedAt] included, is
    unchanged.  This holds for every state of a recommendation, in
    particular one produced by [create]. *)
Theorem edit_revalidates_atomically amb this properties :
  (violates
     (RecommendationCreateData.title (newProperties_of amb this properties))
     (RecommendationCreateData.reason (newProperties_of amb this properties))
     (RecommendationCreateData.excerpt (newProperties_of amb this properties)) ->
   exists e, fst (edit amb this properties) = Throw e
     /\ (coerces (newProperties_of amb this properties) ->
         exists m, e = ValidationError m)
     /\ (passes_URL_objects -> no_URL_strings properties ->
         exists m, e = ValidationError m))
  /\ (forall e, fst (edit amb this properties) = Throw e ->
      snd (edit amb this properties) = this).
Proof.
  split.
  - intro Hv. unfold edit.
    destruct (create amb (newProperties_of amb this properties))
      as [created|e] eqn:Hc.
    + apply create_inv in Hc.
      destruct Hc as (fi & fa & u & _ & _ & _ & Hnv & _). contradiction.
    + exists e. split; [reflexivity|].
      assert (coerces (newProperties_of amb this properties) ->
              exists m, e = ValidationError m) as Hkind.
      { intro Hco. destruct (create_Throw_not_coerced _ _ _ Hc); tauto. }
      split; [exact Hkind|].
      intros Hpass (Hfi & Hfa & Hurl). apply Hkind.
      now apply coerces_edit.
  - intro e. unfold edit.
    destruct (create amb (newProperties_of amb this properties));
      cbn; [discriminate|reflexivity].
Qed.


(** *** Further properties of the entity *)

Lemma clean_fields r :
  id (clean r) = id r /\ title (clean r) = title r
  /\ reason (clean r) = clean_reason (reason r)
  /\ excerpt (clean r) = excerpt r
  /\ featuredImage (clean r) = featuredImage r
  /\ favicon (clean r) = favicon r
  /\ url (clean r) = cleanURL (url r)
  /\ oneClickSubscribe (clean r) = oneClickSubscribe r
  /\ createdAt (clean r) = setMilliseconds (createdAt r) 0
  /\ updatedAt (clean r) = floor_seconds (updatedAt r)
  /\ clickCount (clean r) = clickCount r
  /\ subscriberCount (clean r) = subscriberCount r
  /\ deleted (clean r) = deleted r.
Proof.
  unfold clean, clean_reason, floor_seconds.
  destruct r as [i t [s|] ex fi fa u o c [up|] cc sc de]; cbn;
    try destruct (strlen s =? 0); cbn; repeat split.
Qed.

Lemma clean_reason_violates t re ex :
  violates t (clean_reason re) ex <-> violates t re ex.
Proof.
  unfold violates, over_limit, clean_reason.
  destruct re as [s|]; [|tauto].
  destruct (strlen s =? 0) eqn:Hs; [|tauto].
  apply Z.eqb_eq in Hs. split.
  - intros [H|[H|[(s' & H & _)|H]]]; auto; discriminate.
  - intros [H|[H|[(s' & H1 & H2 & H3)|H]]]; auto.
    inversion H1; subst s'. lia.
Qed.

Lemma create_within_limits amb data r :
  create amb data = Return r -> within_limits r.
Proof.
  intro H. apply create_inv in H.
  destruct H as (fi & fa & u & _ & _ & _ & Hv & ->).
  unfold within_limits.
  destruct (clean_fields (constructor
    {| RecommendationPlain.id :=
         nullish (RecommendationCreateData.id data) (ObjectId_toString amb);
       RecommendationPlain.title := RecommendationCreateData.title data;
       RecommendationPlain.reason := RecommendationCreateData.reason data;
       RecommendationPlain.excerpt := RecommendationCreateData.excerpt data;
       RecommendationPlain.featuredImage := fi;
       RecommendationPlain.favicon := fa;
       RecommendationPlain.url := u;
       RecommendationPlain.oneClickSubscribe :=
         RecommendationCreateData.oneClickSubscribe data;
       RecommendationPlain.createdAt :=
         nullish (RecommendationCreateData.createdAt data) (new_Date amb);
       RecommendationPlain.updatedAt := RecommendationCreateData.updatedAt data;
       RecommendationPlain.clickCount := RecommendationCreateData.clickCount data;
       RecommendationPlain.subscriberCount :=
         RecommendationCreateData.subscriberCount data |}))
    as (_ & -> & -> & -> & _).
  cbn. rewrite clean_reason_violates. exact Hv.
Qed.

Lemma record_eta r :
  r = {| id := id r; title := title r; reason := reason r;
         excerpt := excerpt r; featuredImage := featuredImage r;
         favicon := favicon r; url := url r;
         oneClickSubscribe := oneClickSubscribe r; createdAt := createdAt r;
         updatedAt := updatedAt r; clickCount := clickCount r;
         subscriberCount := subscriberCount r; deleted := deleted r |}.
Proof. destruct r. reflexivity. Qed.

(** [create] on the fields of a normalised recommendation within the
    limits, with any [updatedAt] and any counts. *)
Lemma create_from_fields amb r up cc sc :
  passes_URL_objects -> normalised r -> within_limits r ->
  create amb
    {| RecommendationCreateData.id := Some (id r);
       RecommendationCreateData.title := title r;
       RecommendationCreateData.reason := reason r;
       RecommendationCreateData.excerpt := excerpt r;
       RecommendationCreateData.featuredImage :=
         option_map UrlObject (featuredImage r);
       RecommendationCreateData.favicon := option_map UrlObject (favicon r);
       RecommendationCreateData.url := UrlObject (url r);
       RecommendationCreateData.oneClickSubscribe := oneClickSubscribe r;
       RecommendationCreateData.createdAt := Some (createdAt r);
       RecommendationCreateData.updatedAt := up;
       RecommendationCreateData.clickCount := cc;
       RecommendationCreateData.subscriberCount := sc |}
  = Return
      {| id := id r; title := title r; reason := reason r;
         excerpt := excerpt r; featuredImage := featuredImage r;
         favicon := favicon r; url := url r;
         oneClickSubscribe := oneClickSubscribe r; createdAt := createdAt r;
         updatedAt := floor_seconds up; clickCount := cc;
         subscriberCount := sc; deleted := false |}.
Proof.
  intros (Hu & Hn & Hnull) (Hse & Hha & Hre & Hc & _) Hlim.
  unfold create. cbn [RecommendationCreateData.featuredImage
    RecommendationCreateData.favicon RecommendationCreateData.url].
  assert (UnsafeData_nullable_url "featuredImage"
            (option_map UrlObject (featuredImage r))
          = Some (featuredImage r)) as ->
    by (destruct (featuredImage r); cbn; auto).
  assert (UnsafeData_nullable_url "favicon"
            (option_map UrlObject (favicon r))
          = Some (favicon r)) as ->
    by (destruct (favicon r); cbn; auto).
  rewrite Hu. cbn [unsafe bind].
  match goal with |- context [validate ?d] =>
    assert (validate d = Return tt) as -> by (apply validate_Return; exact Hlim)
  end.
  cbn [bind]. f_equal.
  match goal with |- clean ?x = _ =>
    rewrite (record_eta (clean x));
    destruct (clean_fields x)
      as (H1 & H2 & H3 & H4 & H5 & H6 & H7 & H8 & H9 & H10 & H11 & H12 & H13);
    rewrite H1, H2, H3, H4, H5, H6, H7, H8, H9, H10, H11, H12, H13
  end.
  cbn.
  assert (cleanURL (url r) = url r) as ->.
  { unfold cleanURL. destruct (url r) as [hr se ha]. cbn in *. subst.
    reflexivity. }
  rewrite (setMilliseconds_fixed _ Hc).
  assert (clean_reason (reason r) = reason r) as ->.
  { unfold clean_reason. destruct (reason r) as [s|]; [|reflexivity].
    destruct (strlen s =? 0) eqn:Hz; [|reflexivity].
    apply Z.eqb_eq, strlen_zero in Hz. subst s. congruence. }
  reflexivity.
Qed.

Lemma create_not_deleted amb data r :
  create amb data = Return r -> deleted r = false.
Proof.
  intro H. apply create_inv in H.
  destruct H as (fi & fa & u & _ & _ & _ & _ & ->).
  match goal with |- deleted (clean ?x) = _ =>
    destruct (clean_fields x) as (_&_&_&_&_&_&_&_&_&_&_&_& ->) end.
  reflexivity.
Qed.

(** X1.  [validate] reports the first check that fails, in the order of the
    source: the empty title, then the long title, then the reason, then
    the excerpt; a later failure never hides an earlier one. *)
Theorem validate_reports_first_failure (p : AddRecommendation.t) :
  (strlen (AddRecommendation.title p) = 0 ->
   validate p = Throw (ValidationError "Title must not be empty"))
  /\ (strlen (AddRecommendation.title p) > 2000 ->
      validate p
      = Throw (ValidationError "Title must be less than 2000 characters"))
  /\ (0 < strlen (AddRecommendation.title p) <= 2000 ->
      over_limit (AddRecommendation.reason p) ->
      validate p
      = Throw (ValidationError "Reason must be less than 2000 characters"))
  /\ (0 < strlen (AddRecommendation.title p) <= 2000 ->
      ~ over_limit (AddRecommendation.reason p) ->
      over_limit (AddRecommendation.excerpt p) ->
      validate p
      = Throw (ValidationError "Excerpt must be less than 2000 characters")).
Proof.
  unfold validate. repeat split.
  - intro H. apply Z.eqb_eq in H. rewrite H. reflexivity.
  - intro H.
    destruct (strlen (AddRecommendation.title p) =? 0) eqn:H0;
      [apply Z.eqb_eq in H0; lia|].
    assert ((2000 <? strlen (AddRecommendation.title p)) = true) as ->
      by (apply Z.ltb_lt; lia).
    reflexivity.
  - intros Ht Hr.
    assert ((strlen (AddRecommendation.title p) =? 0) = false) as ->
      by (apply Z.eqb_neq; lia).
    assert ((2000 <? strlen (AddRecommendation.title p)) = false) as ->
      by (apply Z.ltb_ge; lia).
    apply truthy_too_long in Hr. rewrite Hr. reflexivity.
  - intros Ht Hr He.
    assert ((strlen (AddRecommendation.title p) =? 0) = false) as ->
      by (apply Z.eqb_neq; lia).
    assert ((2000 <? strlen (AddRecommendation.title p)) = false) as ->
      by (apply Z.ltb_ge; lia).
    apply truthy_too_long_false in Hr. rewrite Hr.
    apply truthy_too_long in He. rewrite He. reflexivity.
Qed.

(** X2.  [clean] is idempotent: cleaning a recommendation twice gives what
    cleaning it once gives, whatever its state. *)
Theorem clean_idempotent (r : Recommendation) : clean (clean r) = clean r.
Proof. apply clean_fixed, clean_normalised. Qed.

(** X3.  Round trip through [plain]: creating a recommendation anew from the
    plain object of one that [create] returned gives that recommendation
    back, whatever the current date and the next object id are.
    ([UnsafeData] hands back the [URL] objects it is given.) *)
Theorem create_plain_round_trip amb0 data r amb :
  passes_URL_objects ->
  create amb0 data = Return r ->
  create amb (as_CreateData (plain r)) = Return r.
Proof.
  intros Hpass Hc.
  pose proof (create_normalised _ _ _ Hc) as Hn.
  pose proof (create_within_limits _ _ _ Hc) as Hl.
  pose proof (create_not_deleted _ _ _ Hc) as Hd.
  unfold as_CreateData, plain. cbn.
  rewrite (create_from_fields amb r (updatedAt r) (clickCount r)
             (subscriberCount r) Hpass Hn Hl).
  f_equal. symmetry. rewrite (record_eta r) at 1. rewrite Hd. f_equal.
  destruct Hn as (_ & _ & _ & _ & Hup). unfold floor_seconds.
  destruct (updatedAt r) as [u|]; [|reflexivity].
  cbn. rewrite (setMilliseconds_fixed u (Hup u eq_refl)). reflexivity.
Qed.



(** X6.  [delete] marks the recommendation deleted and changes nothing else
    (its plain object is the same), doing it twice is doing it once; no
    edit, whether it returns or throws, changes the mark; and what [create]
    returns is not deleted. *)
Theorem delete_marks_only :
  (forall r, deleted (delete r) = true
             /\ plain (delete r) = plain r
             /\ delete (delete r) = delete r)
  /\ (forall amb r properties,
        deleted (snd (edit amb r properties)) = deleted r)
  /\ (forall amb data r, create amb data = Return r -> deleted r = false).
Proof.
  split; [|split].
  - intro r. repeat split.
  - intros amb r properties. unfold edit.
    destruct (create amb (newProperties_of amb r properties)); reflexivity.
  - exact create_not_deleted.
Qed.

(** X7.  The counts are read-only: neither an edit that names them nor any
    other edit changes [clickCount] or [subscriberCount], in any state. *)
Theorem edit_keeps_counts amb r properties :
  clickCount (snd (edit amb r properties)) = clickCount r
  /\ subscriberCount (snd (edit amb r properties)) = subscriberCount r.
Proof.
  unfold edit.
  destruct (create amb (newProperties_of amb r properties)); split; reflexivity.
Qed.



End WithUnsafeData.

(** *** The entity on concrete inputs *)

(** The sample accessors hand back what they are given. *)
Lemma sample_passes_URL_objects :
  passes_URL_objects sample_url sample_nullable_url.
Proof. repeat split. Defined.

Example validate_empty_title :
  validate (add_with "" None None)
  = Throw (ValidationError "Title must not be empty").
Proof. reflexivity. Qed.

Example validate_reason_2001 :
  validate (add_with "Ghost" (Some (repeat_char "r" 2001)) None)
  = Throw (ValidationError "Reason must be less than 2000 characters").
Proof. vm_compute. reflexivity. Qed.

Example validate_excerpt_2001 :
  validate (add_with "Ghost" None (Some (repeat_char "e" 2001)))
  = Throw (ValidationError "Excerpt must be less than 2000 characters").
Proof. vm_compute. reflexivity. Qed.

Example validate_empty_reason :
  validate (add_with "Ghost" (Some "") (Some "")) = Return tt.
Proof. reflexivity. Qed.

Example create_sample :
  create sample_url sample_nullable_url sample_ambient sample_data
  = Return sample_created.
Proof. reflexivity. Qed.

Example create_empty_title :
  create sample_url sample_nullable_url sample_ambient
    (CreateData_of_Add (add_with "" None None))
  = Throw (ValidationError "Title must not be empty").
Proof. reflexivity. Qed.

Example create_rejected_url :
  create sample_url sample_nullable_url sample_ambient
    (CreateData_of_Add
       {| AddRecommendation.title := "";
          AddRecommendation.reason := None;
          AddRecommendation.excerpt := None;
          AddRecommendation.featuredImage := None;
          AddRecommendation.favicon := None;
          AddRecommendation.url := StringValue "ghost.org";
          AddRecommendation.oneClickSubscribe := false;
          AddRecommendation.clickCount := None;
          AddRecommendation.subscriberCount := None |})
  = Throw (UnsafeDataThrow "url").
Proof. reflexivity. Qed.

Example edit_sample :
  edit sample_url sample_nullable_url later_ambient sample_created sample_edit
  = (Return tt, sample_edited).
Proof. reflexivity. Qed.

Example edit_emptying :
  edit sample_url sample_nullable_url later_ambient sample_created emptying_edit
  = (Throw (ValidationError "Title must not be empty"), sample_created).
Proof. reflexivity. Qed.

(** A state that [create] never produces (its reason is the empty string)
    is changed by an edit that specifies nothing: the frame property of
    [edit] rests on the normal form. *)
Example edit_unnormalised :
  reason (snd (edit sample_url sample_nullable_url later_ambient
                 (set_reason sample_created (Some ""))
                 {| EditRecommendation.title := Absent;
                    EditRecommendation.reason := Absent;
                    EditRecommendation.excerpt := Absent;
                    EditRecommendation.featuredImage := Absent;
                    EditRecommendation.favicon := Absent;
                    EditRecommendation.url := Absent;
                    EditRecommendation.oneClickSubscribe := Absent;
                    EditRecommendation.clickCount := Absent;
                    EditRecommendation.subscriberCount := Absent |}))
  = None.
Proof. reflexivity. Qed.


(** Titles, reasons and excerpts of exactly 2000 characters. *)
Lemma validate_accepts_boundary_witness :
  validate (add_with (repeat_char "t" 2000) None None) = Return tt
  /\ validate (add_with "Ghost" (Some (repeat_char "r" 2000)) None) = Return tt
  /\ validate (add_with "Ghost" None (Some (repeat_char "e" 2000))) = Return tt.
Proof.
  destruct validate_accepts_boundary as (Ht & _ & Hr & He).
  split; [|split].
  - apply Ht; [vm_compute; reflexivity | discriminate | discriminate].
  - apply (Hr _ (repeat_char "r" 2000));
      [vm_compute; split; [reflexivity | discriminate]
      | reflexivity | vm_compute; reflexivity | discriminate].
  - apply (He _ (repeat_char "e" 2000));
      [vm_compute; split; [reflexivity | discriminate]
      | discriminate | reflexivity | vm_compute; reflexivity].
Defined.


(** The edit that empties the title throws and changes nothing. *)
Lemma edit_revalidates_atomically_witness :
  (exists m, fst (edit sample_url sample_nullable_url later_ambient
                    sample_created emptying_edit) = Throw (ValidationError m))
  /\ snd (edit sample_url sample_nullable_url later_ambient
            sample_created emptying_edit) = sample_created.
Proof.
  destruct (edit_revalidates_atomically sample_url sample_nullable_url
              later_ambient sample_created emptying_edit) as [Hthrow Hsame].
  destruct Hthrow as (e & He & _ & Hkind).
  { left. reflexivity. }
  split.
  - destruct Hkind as [m ->].
    + exact sample_passes_URL_objects.
    + repeat split; discriminate.
    + exists m. exact He.
  - apply (Hsame e He).
Defined.


(** The sample recommendation is created anew from its plain object. *)
Lemma create_plain_round_trip_witness :
  create sample_url sample_nullable_url later_ambient
    (as_CreateData (plain sample_created))
  = Return sample_created.
Proof.
  apply (create_plain_round_trip sample_url sample_nullable_url
           sample_ambient sample_data sample_created later_ambient
           sample_passes_URL_objects).
  reflexivity.
Defined.





End Recommendation.

(* ================================================================= *)
(** * RoutingProvider.tsx *)

Module Routing.

(** Strings are lists of code units; [lit] reads a literal. *)
Abbreviation str := (list ascii) (only parsing).
Definition lit (s : string) : str := list_ascii_of_string s.

Definition code (c : ascii) : nat := nat_of_ascii c.

Definition between (lo hi : nat) (c : ascii) : bool :=
  Nat.leb lo (code c) && Nat.leb (code c) hi.

Definition is_digit (c : ascii) : bool := between 48 57 c.
Definition is_upper (c : ascii) : bool := between 65 90 c.
Definition is_lower (c : ascii) : bool := between 97 122 c.
Definition is_alpha (c : ascii) : bool := is_upper c || is_lower c.

(** [\w] *)
Definition is_word (c : ascii) : bool :=
  is_alpha c || is_digit c || Ascii.eqb c "_".

Definition is_empty {A} (l : list A) : bool :=
  match l with
  | [] => true
  | _ :: _ => false
  end.

Fixpoint str_eqb (a b : str) : bool :=
  match a, b with
  | [], [] => true
  | x :: a', y :: b' => Ascii.eqb x y && str_eqb a' b'
  | _, _ => false
  end.

(** [s.startsWith(p)], with the rest of [s] *)
Fixpoint strip_prefix (p s : str) : option str :=
  match p, s with
  | [], _ => Some s
  | x :: p', y :: s' => if Ascii.eqb x y then strip_prefix p' s' else None
  | _ :: _, [] => None
  end.

(** What a call of the model does: it returns, it throws, or it leaves the
    part of the platform that is modelled (see [RegExp] and [new_URL]). *)
Inductive Exn : Type :=
| SyntaxError.

Inductive Run (A : Type) : Type :=
| Returns (a : A)
| Throws (e : Exn)
| Unmodelled.
Arguments Returns {A} a.
Arguments Throws {A} e.
Arguments Unmodelled {A}.

Definition rbind {A B} (c : Run A) (k : A -> Run B) : Run B :=
  match c with
  | Returns a => k a
  | Throws e => Throws e
  | Unmodelled => Unmodelled
  end.

Notation "x <~ c ;; k" := (rbind c (fun x => k))
  (at level 61, c at next level, right associativity).

(** ** Regular expressions

    The patterns [matchRoute] builds are a sequence of terms: pattern
    characters, [.], the assertions [^] and [$], and named groups of the
    one shape the replacement inserts, [(?<name>[^/]+)]. *)
Inductive term : Type :=
| Bol                       (* ^ *)
| Eol                       (* $ *)
| Chr (c : ascii)           (* a pattern character *)
| Dot                       (* . *)
| Group (name : str).       (* (?<name>[^/]+) *)

Abbreviation RouteParams := (list (list ascii * list ascii)) (only parsing).

(** Syntax characters that are not modelled as pattern text. *)
Definition unmodelled_syntax (c : ascii) : bool :=
  existsb (Ascii.eqb c) (lit "\*+?()[]{}|").

(** Characters that stand for themselves in a pattern. *)
Definition pattern_char (c : ascii) : bool :=
  negb (existsb (Ascii.eqb c) (lit "^$.\*+?()[]{}|")).

(** The parser of pattern text, one character at a time.  After [(] only the
    group [(?<name>[^/]+)] is read: [expect] holds the text still to come. *)
Inductive parser_state : Type :=
| Top
| Opening (expect : str)               (* inside "(?<" *)
| Name (acc : str)                     (* inside the group name *)
| Body (name : str) (expect : str).    (* inside "[^/]+)" *)

Definition group_name_char (c : ascii) : bool :=
  is_word c || Ascii.eqb c "$".

Fixpoint parse (st : parser_state) (s : str) : Run (list term) :=
  match s with
  | [] =>
      match st with
      | Top => Returns []
      | _ => Unmodelled
      end
  | c :: s' =>
      match st with
      | Top =>
          if Ascii.eqb c "(" then parse (Opening (lit "?<")) s'
          else if Ascii.eqb c "^" then ts <~ parse Top s' ;; Returns (Bol :: ts)
          else if Ascii.eqb c "$" then ts <~ parse Top s' ;; Returns (Eol :: ts)
          else if Ascii.eqb c "." then ts <~ parse Top s' ;; Returns (Dot :: ts)
          else if unmodelled_syntax c then Unmodelled
          else ts <~ parse Top s' ;; Returns (Chr c :: ts)
      | Opening expect =>
          match expect with
          | e :: expect' =>
              if Ascii.eqb c e
              then match expect' with
                   | [] => parse (Name []) s'
                   | _ => parse (Opening expect') s'
                   end
              else Unmodelled
          | [] => Unmodelled
          end
      | Name acc =>
          if Ascii.eqb c ">" then
            match acc with
            | [] => Throws SyntaxError
            | c0 :: _ =>
                if is_digit c0 then Throws SyntaxError
                else parse (Body acc (lit "[^/]+)")) s'
            end
          else if group_name_char c then parse (Name (acc ++ [c])) s'
          else Unmodelled
      | Body name expect =>
          match expect with
          | e :: expect' =>
              if Ascii.eqb c e
              then match expect' with
                   | [] => ts <~ parse Top s' ;; Returns (Group name :: ts)
                   | _ => parse (Body name expect') s'
                   end
              else Unmodelled
          | [] => Unmodelled
          end
      end
  end.

Fixpoint group_names (ts : list term) : list str :=
  match ts with
  | [] => []
  | Group n :: ts' => n :: group_names ts'
  | _ :: ts' => group_names ts'
  end.

Fixpoint distinct (l : list str) : bool :=
  match l with
  | [] => true
  | x :: l' => negb (existsb (str_eqb x) l') && distinct l'
  end.

(** [new RegExp(source)]: two groups of one name are a [SyntaxError]. *)
Definition RegExp (source : str) : Run (list term) :=
  ts <~ parse Top source ;;
  if distinct (group_names ts) then Returns ts else Throws SyntaxError.

Definition line_terminator (c : ascii) : bool :=
  Nat.eqb (code c) 10 || Nat.eqb (code c) 13.

(** The group [(?<name>[^/]+)] at one position: it takes as many
    characters other than [/] as it can, at least one, and gives them back
    one at a time until the rest of the pattern, [rest], matches. *)
Fixpoint take_segment (rest : str -> option RouteParams) (name taken s : str)
  : option RouteParams :=
  match s with
  | c :: s' =>
      if Ascii.eqb c "/" then None
      else match take_segment rest name (taken ++ [c]) s' with
           | Some groups => Some groups
           | None => option_map (cons (name, taken ++ [c])) (rest s')
           end
  | [] => None
  end.

(** Matching the terms [ts] at one position of the input; [start] says
    whether the position is index 0. *)
Fixpoint run (ts : list term) (start : bool) (s : str) : option RouteParams :=
  match ts with
  | [] => Some []
  | Bol :: ts' => if start then run ts' start s else None
  | Eol :: ts' => if is_empty s then run ts' start s else None
  | Chr c :: ts' =>
      match s with
      | c' :: s' => if Ascii.eqb c c' then run ts' false s' else None
      | [] => None
      end
  | Dot :: ts' =>
      match s with
      | c' :: s' => if line_terminator c' then None else run ts' false s'
      | [] => None
      end
  | Group name :: ts' => take_segment (run ts' false) name [] s
  end.

(** [s.match(regex)] for a regex without flags: the first position at which
    the terms match; the result is [match.groups || {}]. *)
Fixpoint exec (ts : list term) (start : bool) (s : str) : option RouteParams :=
  match run ts start s with
  | Some groups => Some groups
  | None =>
      match s with
      | [] => None
      | _ :: s' => exec ts false s'
      end
  end.

Definition String_match (s : str) (regex : list term) : option RouteParams :=
  exec regex true s.

(** ** matchRoute *)

(** The longest prefix of word characters, and the rest. *)
Fixpoint take_word (s : str) : str * str :=
  match s with
  | c :: s' =>
      if is_word c
      then let (w, rest) := take_word s' in (c :: w, rest)
      else ([], s)
  | [] => ([], [])
  end.

(** The first match of [/:(\w+)/] in [s]: the text before it, the word
    captured and the text after it. *)
Fixpoint find_param (s : str) : option (str * str * str) :=
  match s with
  | [] => None
  | c :: s' =>
      let skip :=
        match find_param s' with
        | Some (before, name, after) => Some (c :: before, name, after)
        | None => None
        end in
      if Ascii.eqb c ":" then
        match take_word s' with
        | ([], _) => skip
        | (name, after) => Some ([], name, after)
        end
      else skip
  end.

(** [routeDefinition.replace(/:(\w+)/, '(?<$1>[^/]+)')] *)
Definition replace_param (routeDefinition : str) : str :=
  match find_param routeDefinition with
  | Some (before, name, after) =>
      before ++ lit "(?<" ++ name ++ lit ">[^/]+)" ++ after
  | None => routeDefinition
  end.

(** [matchRoute(pathname, routeDefinition)]; [None] is [undefined]. *)
Definition matchRoute (pathname routeDefinition : str)
  : Run (option RouteParams) :=
  regex <~ RegExp (lit "^" ++ replace_param routeDefinition ++ lit "$") ;;
  match String_match pathname regex with
  | Some groups => Returns (Some groups)
  | None => Returns None
  end.

(** ** updateRoute *)

Module ExternalLink.
Record t : Type := mk {
  route : str;
  models : option (option (list str))     (* models?: string[] | null *)
}.
End ExternalLink.

(** [isExternal?: false] *)
Inductive OptionalFalse : Type :=
| Missing
| IsFalse.

Module InternalLink.
Record t : Type := mk {
  isExternal : OptionalFalse;
  route : str
}.
End InternalLink.

(** [string | InternalLink | ExternalLink] *)
Inductive To : Type :=
| ToString (to : str)
| ToInternal (to : InternalLink.t)
| ToExternal (to : ExternalLink.t).

(** What [updateRoute] does to its surroundings: it calls the
    [externalNavigate] callback, or it assigns to [window.location.hash]. *)
Inductive Effect : Type :=
| externalNavigate (link : ExternalLink.t)
| set_location_hash (value : str).

(** [updateRoute(to)]: the effects of the call, in order. *)
Definition updateRoute (to : To) : list Effect :=
  match to with
  | ToExternal options =>
      (* options.isExternal is true *)
      [externalNavigate options]
  | ToString route | ToInternal {| InternalLink.route := route |} =>
      (* options.isExternal is undefined or false *)
      let newPath := route in
      if negb (is_empty newPath)
      then [set_location_hash (lit "/settings-x/" ++ newPath)]
      else [set_location_hash (lit "/settings-x")]
  end.

(** ** The URL parser

    [new URL(input, base)] for a reference [input] without scheme and
    without authority, against a base [http(s)://host] with an empty path:
    the relative, path and query states of the URL standard.  Inputs
    outside this part (a scheme, [//], code units above 127, other bases)
    are [Unmodelled]. *)
Record URL : Type := mkURL {
  pathname : str;
  query : option str        (* the query without '?', or null *)
}.

(** [url.search] *)
Definition search (u : URL) : str :=
  match query u with
  | None | Some [] => []
  | Some q => "?"%char :: q
  end.

(** [url.searchParams]: the object is determined by the query it is
    initialised with. *)
Record URLSearchParams : Type := mkURLSearchParams {
  init : str
}.

Definition URL_searchParams (u : URL) : URLSearchParams :=
  {| init := nullish (query u) [] |}.

Definition code_in (codes : list nat) (c : ascii) : bool :=
  existsb (Nat.eqb (code c)) codes.

Definition c0_control_or_space (c : ascii) : bool := Nat.leb (code c) 32.
Definition tab_or_newline (c : ascii) : bool := code_in [9; 10; 13] c.

Fixpoint drop_while (f : ascii -> bool) (s : str) : str :=
  match s with
  | c :: s' => if f c then drop_while f s' else s
  | [] => []
  end.

(** Leading and trailing C0 controls and spaces are removed, then every tab
    and newline. *)
Definition preprocess (input : str) : str :=
  let input := drop_while c0_control_or_space input in
  let input := rev (drop_while c0_control_or_space (rev input)) in
  filter (fun c => negb (tab_or_newline c)) input.

Definition hex_digit (n : nat) : ascii :=
  nth n (lit "0123456789ABCDEF") "0"%char.

Definition percent_encode (c : ascii) : str :=
  ["%"%char; hex_digit (Nat.div (code c) 16); hex_digit (Nat.modulo (code c) 16)].

(** The percent-encode sets, on code units below 128. *)
Definition c0_control_set (c : ascii) : bool :=
  Nat.leb (code c) 31 || Nat.leb 127 (code c).
Definition query_set (c : ascii) : bool :=
  c0_control_set c || code_in [32; 34; 35; 60; 62] c.   (* space, double quote, #, <, > *)
Definition special_query_set (c : ascii) : bool :=
  query_set c || code_in [39] c.                        (* apostrophe *)
Definition path_set (c : ascii) : bool :=
  query_set c || code_in [63; 94; 96; 123; 125] c.      (* ? ^ ` { } *)

Definition encode_with (set : ascii -> bool) (c : ascii) : str :=
  if set c then percent_encode c else [c].

Definition non_ascii (c : ascii) : bool := Nat.leb 128 (code c).

Definition to_lower (c : ascii) : ascii :=
  if is_upper c then ascii_of_nat (code c + 32) else c.

Definition eq_ignoring_case (buffer lowered : str) : bool :=
  str_eqb (map to_lower buffer) lowered.

Definition single_dot (buffer : str) : bool :=
  eq_ignoring_case buffer (lit ".") || eq_ignoring_case buffer (lit "%2e").

Definition double_dot (buffer : str) : bool :=
  eq_ignoring_case buffer (lit "..") || eq_ignoring_case buffer (lit ".%2e")
  || eq_ignoring_case buffer (lit "%2e.")
  || eq_ignoring_case buffer (lit "%2e%2e").

(** Shortening a path of an http(s) URL removes its last segment, if any. *)
Definition shorten (path : list str) : list str := removelast path.

(** The end of a segment in the path state; [at_slash] says whether the
    segment is ended by [/] or [\] rather than by [?], [#] or the end. *)
Definition close_segment (path : list str) (buffer : str) (at_slash : bool)
  : list str :=
  if double_dot buffer then
    let path := shorten path in
    if at_slash then path else path ++ [[]]
  else if single_dot buffer then
    if at_slash then path else path ++ [[]]
  else path ++ [buffer].

(** The pathname of a path: every segment preceded by [/]. *)
Fixpoint serialize (path : list str) : str :=
  match path with
  | [] => []
  | segment :: path' => "/"%char :: segment ++ serialize path'
  end.

Definition is_slash (c : ascii) : bool :=
  Ascii.eqb c "/" || Ascii.eqb c "\".

Fixpoint query_state (s : str) : Run str :=
  match s with
  | [] => Returns []
  | c :: s' =>
      if Ascii.eqb c "#" then Returns []
      else if non_ascii c then Unmodelled
      else q <~ query_state s' ;; Returns (encode_with special_query_set c ++ q)
  end.

Fixpoint path_state (path : list str) (buffer : str) (s : str) : Run URL :=
  match s with
  | [] =>
      Returns {| pathname := serialize (close_segment path buffer false);
                 query := None |}
  | c :: s' =>
      if is_slash c then path_state (close_segment path buffer true) [] s'
      else if Ascii.eqb c "?" then
        q <~ query_state s' ;;
        Returns {| pathname := serialize (close_segment path buffer false);
                   query := Some q |}
      else if Ascii.eqb c "#" then
        Returns {| pathname := serialize (close_segment path buffer false);
                   query := None |}
      else if non_ascii c then Unmodelled
      else path_state path (buffer ++ encode_with path_set c) s'
  end.

(** The scheme start and scheme states find a scheme when the input starts
    with a letter and the letters, digits, [+], [-] and [.] after it are
    followed by [:]. *)
Definition scheme_char (c : ascii) : bool :=
  is_alpha c || is_digit c || code_in [43; 45; 46] c.

Definition has_scheme (input : str) : bool :=
  match input with
  | c :: s' =>
      is_alpha c
      && match drop_while scheme_char s' with
         | c' :: _ => Ascii.eqb c' ":"
         | [] => false
         end
  | [] => false
  end.

(** The relative and relative slash states, for a base whose path is the
    single empty segment. *)
Definition relative_state (input : str) : Run URL :=
  match input with
  | [] => Returns {| pathname := serialize [[]]; query := None |}
  | c :: s' =>
      if is_slash c then
        match s' with
        | c' :: _ => if is_slash c' then Unmodelled else path_state [] [] s'
        | [] => path_state [] [] s'
        end
      else if Ascii.eqb c "?" then
        q <~ query_state s' ;;
        Returns {| pathname := serialize [[]]; query := Some q |}
      else if Ascii.eqb c "#" then
        Returns {| pathname := serialize [[]]; query := None |}
      else path_state (shorten [[]]) [] input
  end.

(** Hosts that are domains of lower-case letters, digits and dots, with no
    empty label and a last label that starts with a letter. *)
Fixpoint simple_labels (label_start : bool) (last_alpha : bool) (h : str)
  : bool :=
  match h with
  | [] => negb label_start && last_alpha
  | c :: h' =>
      if Ascii.eqb c "." then negb label_start && simple_labels true false h'
      else (is_lower c || is_digit c)
           && simple_labels false
                (if label_start then is_lower c else last_alpha) h'
  end.

Definition simple_base (base : str) : bool :=
  match strip_prefix (lit "http://") base with
  | Some host => simple_labels true false host
  | None =>
      match strip_prefix (lit "https://") base with
      | Some host => simple_labels true false host
      | None => false
      end
  end.

(** [new URL(input, base)] *)
Definition new_URL (input base : str) : Run URL :=
  if simple_base base then
    let input := preprocess input in
    if has_scheme input then Unmodelled else relative_state input
  else Unmodelled.

(** ** handleNavigation *)

Abbreviation ModalName := (list ascii) (only parsing).

Definition modalPaths : list (str * ModalName) :=
  [ (lit "design/edit/themes", lit "DesignAndThemeModal");
    (lit "design/edit", lit "DesignAndThemeModal");
    (lit "design/change-theme/install", lit "DesignAndThemeModal");
    (lit "navigation/edit", lit "NavigationModal");
    (lit "users/invite", lit "InviteUserModal");
    (lit "users/show/:slug", lit "UserDetailModal");
    (lit "portal/edit", lit "PortalModal");
    (lit "tiers/add", lit "TierDetailModal");
    (lit "tiers/show/:id", lit "TierDetailModal");
    (lit "stripe-connect", lit "StripeConnectModal");
    (lit "newsletters/add", lit "AddNewsletterModal");
    (lit "newsletters/show/:id", lit "NewsletterDetailModal");
    (lit "history/view", lit "HistoryModal");
    (lit "history/view/:user", lit "HistoryModal");
    (lit "integrations/zapier", lit "ZapierModal");
    (lit "integrations/slack", lit "SlackModal");
    (lit "integrations/amp", lit "AmpModal");
    (lit "integrations/unsplash", lit "UnsplashModal");
    (lit "integrations/firstpromoter", lit "FirstpromoterModal");
    (lit "integrations/pintura", lit "PinturaModal");
    (lit "integrations/add", lit "AddIntegrationModal");
    (lit "integrations/show/:id", lit "CustomIntegrationModal");
    (lit "recommendations/add", lit "AddRecommendationModal");
    (lit "recommendations/edit", lit "EditRecommendationModal");
    (lit "announcement-bar/edit", lit "AnnouncementBarModal");
    (lit "embed-signup-form/show", lit "EmbedSignupFormModal") ].

(** The text after the first occurrence of [pat] in [s]. *)
Fixpoint after_first (pat s : str) : option str :=
  match strip_prefix pat s with
  | Some rest => Some rest
  | None =>
      match s with
      | [] => None
      | _ :: s' => after_first pat s'
      end
  end.

(** The capture group, any characters but line terminators: the
    characters up to the first line terminator. *)
Fixpoint take_line (s : str) : str :=
  match s with
  | c :: s' => if line_terminator c then [] else c :: take_line s'
  | [] => []
  end.

(** [getHashPath(urlPath)]; [None] is [undefined] for the argument and
    [null] for the result. *)
Definition getHashPath (urlPath : option str) : option str :=
  match urlPath with
  | None | Some [] => None
  | Some urlPath =>
      (* urlPath.match(regex): the first '/settings-x/' and the capture after it *)
      match after_first (lit "/settings-x/") urlPath with
      | Some rest => let afterSettingsX := take_line rest in Some afterSettingsX
      | None => None
      end
  end.

Record WindowLocation : Type := mkWindowLocation {
  hash : str;
  protocol : str;
  hostname : str
}.

Module RoutingModalProps.
Record t : Type := mk {
  pathName : str;
  params : option RouteParams;
  searchParams : URLSearchParams
}.
End RoutingModalProps.

(** [NiceModal.show(modals[modalName], props)], run once the modals are
    imported. *)
Record Show : Type := mkShow {
  modalName : ModalName;
  props : RoutingModalProps.t
}.

(** The object [handleNavigation] returns; [{pathName: ''}] has neither
    [changingModal] nor [modal]. *)
Record Navigation : Type := mkNavigation {
  pathName : str;
  changingModal : option bool;
  modal : option Show
}.

(** [Object.entries(modalPaths).find(([modalPath]) => matchRoute(p, modalPath))] *)
Fixpoint find_entry (p : str) (entries : list (str * ModalName))
  : Run (option (str * ModalName)) :=
  match entries with
  | [] => Returns None
  | (modalPath, name) :: entries' =>
      m <~ matchRoute p modalPath ;;
      match m with
      | Some _ => Returns (Some (modalPath, name))
      | None => find_entry p entries'
      end
  end.

Definition same_name (a : ModalName) (b : option ModalName) : bool :=
  match b with
  | Some b => str_eqb a b
  | None => false
  end.

(** [handleNavigation(currentRoute)], reading [window.location]. *)
Definition handleNavigation (location : WindowLocation)
    (currentRoute : option str) : Run Navigation :=
  let hash := hash location in
  let hash := skipn 1 hash in
  let domain := protocol location ++ lit "//" ++ hostname location in
  url <~ new_URL hash domain ;;
  let pathName := getHashPath (Some (pathname url)) in
  let searchParams := URL_searchParams url in
  match pathName with
  | Some (c :: p) =>
      let pathName := c :: p in
      (* currentRoute || '' *)
      current <~ find_entry (nullish currentRoute []) modalPaths ;;
      found <~ find_entry pathName modalPaths ;;
      let currentModalName := option_map snd current in
      match found with
      | Some (path, modalName) =>
          modal <~ (if negb (is_empty path) && negb (is_empty modalName)
                    then
                      params <~ matchRoute pathName path ;;
                      Returns
                        (Some {| modalName := modalName;
                                 props :=
                                   {| RoutingModalProps.pathName := pathName;
                                      RoutingModalProps.params := params;
                                      RoutingModalProps.searchParams :=
                                        searchParams |} |})
                    else Returns None) ;;
          Returns
            {| pathName := pathName;
               (* modalName && modalName !== currentModalName *)
               changingModal :=
                 if is_empty modalName then None
                 else Some (negb (same_name modalName currentModalName));
               modal := modal |}
      | None =>
          Returns {| pathName := pathName; changingModal := None;
                     modal := None |}
      end
  | _ => Returns {| pathName := []; changingModal := None; modal := None |}
  end.

(** ** Concrete locations *)

Definition location_with (hash : string) : WindowLocation :=
  {| hash := lit hash; protocol := lit "http:"; hostname := lit "localhost" |}.

(** ** Route patterns, in the words of the specification *)

(** No [:] of [s] is followed by a word character. *)
Definition no_parameter (s : str) : Prop :=
  forall l c r, s = l ++ ":"%char :: c :: r -> is_word c = false.

(** [after] does not go on with a word character. *)
Definition ends_word (after : str) : Prop :=
  match after with
  | [] => True
  | c :: _ => is_word c = false
  end.

(** [def] is [before], then the first [:]-parameter [name], then [after]. *)
Definition parameter_at (def before name after : str) : Prop :=
  def = before ++ ":"%char :: name ++ after
  /\ name <> []
  /\ forallb is_word name = true
  /\ ends_word after
  /\ no_parameter before.

Definition no_slash (segment : str) : Prop := ~ In "/"%char segment.

(** The whole [pathname] matches [def]: it is [def] itself when [def] has
    no parameter, and otherwise [def] with its parameter replaced by one
    non-empty segment without [/], to which the parameter is bound. *)
Definition route_matches (pathname def : str) (bindings : RouteParams) : Prop :=
  (no_parameter def /\ pathname = def /\ bindings = [])
  \/ (exists before name after segment,
        parameter_at def before name after
        /\ segment <> [] /\ no_slash segment
        /\ pathname = before ++ segment ++ after
        /\ bindings = [(name, segment)]).

(** A definition whose characters all stand for themselves in a pattern and
    whose parameter name, if any, does not start with a digit. *)
Definition valid_group_name (name : str) : bool :=
  match name with
  | c :: _ => negb (is_digit c)
  | [] => false
  end.

Definition plain_definition (def : str) : bool :=
  forallb pattern_char def
  && match find_param def with
     | Some (_, name, _) => valid_group_name name
     | None => true
     end.

(** The regular expression of a plain definition. *)
Definition terms_of (def : str) : list term :=
  match find_param def with
  | Some (before, name, after) =>
      Bol :: map Chr before ++ Group name :: map Chr after ++ [Eol]
  | None => Bol :: map Chr def ++ [Eol]
  end.

(** [pathname] matches the plain pattern [pat], decided. *)
Definition matchesb (pathname pat : str) : bool :=
  match String_match pathname (terms_of pat) with
  | Some _ => true
  | None => false
  end.

(** What a pathname that matches the plain pattern [pat] looks like. *)
Definition shape_of (pat path : str) : Prop :=
  match find_param pat with
  | Some (before, _, after) =>
      exists segment, segment <> [] /\ no_slash segment
                      /\ path = before ++ segment ++ after
  | None => path = pat
  end.

(** ** Hashes of the plain form *)

(** Visible ASCII characters that the path state copies unchanged: not [\],
    and none of the path percent-encode set. *)
Definition path_plain (c : ascii) : bool :=
  between 33 126 c && negb (path_set c) && negb (Ascii.eqb c "\").

(** Visible ASCII characters that the query state copies unchanged. *)
Definition query_plain (c : ascii) : bool :=
  between 33 126 c && negb (special_query_set c).

Definition dot_segment (buffer : str) : bool :=
  single_dot buffer || double_dot buffer.

(** No segment of [buffer ++ p], split at [/], is a dot segment. *)
Fixpoint segments_ok (buffer p : str) : bool :=
  match p with
  | [] => negb (dot_segment buffer)
  | c :: p' =>
      if Ascii.eqb c "/"
      then negb (dot_segment buffer) && segments_ok [] p'
      else segments_ok (buffer ++ [c]) p'
  end.

Definition no_dot_segments (p : str) : bool := segments_ok [] p.

Definition starts_with_slash (p : str) : bool :=
  match p with
  | c :: _ => Ascii.eqb c "/"
  | [] => false
  end.

(** ['?' + query], or nothing. *)
Definition query_suffix (q : option str) : str :=
  match q with
  | Some q => "?"%char :: q
  | None => []
  end.

(** [pat] occurs in [s]. *)
Definition occurs (pat s : str) : Prop :=
  exists l r, s = l ++ pat ++ r.

(** [pathname] matches the pattern [pat] of the table. *)
Definition matches (pathname pat : str) : Prop :=
  exists bindings, matchRoute pathname pat = Returns (Some bindings).

(** Characters that the preprocessing of the parser keeps. *)
Definition visible (c : ascii) : bool :=
  negb (c0_control_or_space c) && negb (tab_or_newline c).

(** The object [handleNavigation] returns for a hash path and search
    parameters, the patterns of the table being plain. *)
Definition navigation_of (currentRoute : option str) (hashPath : option str)
    (searchParams : URLSearchParams) : Navigation :=
  match hashPath with
  | Some (c :: p) =>
      let current :=
        find (fun e => matchesb (nullish currentRoute []) (fst e)) modalPaths in
      match find (fun e => matchesb (c :: p) (fst e)) modalPaths with
      | Some (path, name) =>
          {| pathName := c :: p;
             changingModal :=
               if is_empty name then None
               else Some (negb (same_name name (option_map snd current)));
             modal :=
               if negb (is_empty path) && negb (is_empty name)
               then Some {| modalName := name;
                            props :=
                              {| RoutingModalProps.pathName := c :: p;
                                 RoutingModalProps.params :=
                                   String_match (c :: p) (terms_of path);
                                 RoutingModalProps.searchParams :=
                                   searchParams |} |}
               else None |}
      | None => {| pathName := c :: p; changingModal := None; modal := None |}
      end
  | _ => {| pathName := []; changingModal := None; modal := None |}
  end.

(** ** The hash setter and the provider *)

(** The fragment percent-encode set, on code units below 128: the C0
    controls, space, double quote, [<], [>] and backquote. *)
Definition fragment_set (c : ascii) : bool :=
  c0_control_set c || code_in [32; 34; 60; 62; 96] c.

Fixpoint fragment_state (s : str) : Run str :=
  match s with
  | [] => Returns []
  | c :: s' =>
      if non_ascii c then Unmodelled
      else f <~ fragment_state s' ;; Returns (encode_with fragment_set c ++ f)
  end.

(** [window.location.hash = value]: one leading [#] of the value is
    dropped, tabs and newlines are removed, the rest is parsed in the
    fragment state; [location.hash] is then [#] and the fragment, or empty
    when the fragment is. *)
Definition assign_hash (value : str) (location : WindowLocation)
  : Run WindowLocation :=
  let input :=
    match value with
    | c :: rest => if Ascii.eqb c "#" then rest else value
    | [] => value
    end in
  let input := filter (fun c => negb (tab_or_newline c)) input in
  fragment <~ fragment_state input ;;
  Returns {| hash := if is_empty fragment then [] else "#"%char :: fragment;
             protocol := protocol location;
             hostname := hostname location |}.

(** The state of [RoutingProvider]: [route] ([undefined] before the first
    navigation is handled) and [loadingModal]. *)
Record Provider : Type := mkProvider {
  route : option str;
  loadingModal : bool
}.

(** [handleHashChange]: the updater given to [setRoute] runs
    [handleNavigation] on the current route; [setLoadingModal(true)] is
    called when a modal is shown and is changing. *)
Definition handleHashChange (location : WindowLocation) (st : Provider)
  : Run Provider :=
  nav <~ handleNavigation location (route st) ;;
  Returns
    {| route := Some (pathName nav);
       loadingModal :=
         match modal nav, changingModal nav with
         | Some _, Some true => true
         | _, _ => loadingModal st
         end |}.

(** The route of a string or of an internal link. *)
Definition internal (route : str) (as_link : option OptionalFalse) : To :=
  match as_link with
  | Some isExternal =>
      ToInternal {| InternalLink.isExternal := isExternal;
                    InternalLink.route := route |}
  | None => ToString route
  end.


(** [l] is the text before the first occurrence of [pat] in [s]. *)
Definition first_occurrence (pat l s : str) : Prop :=
  (exists rest, s = l ++ pat ++ rest)
  /\ forall l' rest', s = l' ++ pat ++ rest' -> List.length l <= List.length l'.

(** ** Lemmas on characters and strings *)

Ltac each_ascii c :=
  destruct c as [[] [] [] [] [] [] [] []].

Lemma word_chars c :
  is_word c = true ->
  pattern_char c = true /\ group_name_char c = true
  /\ Ascii.eqb c ">" = false /\ Ascii.eqb c ":" = false
  /\ Ascii.eqb c "/" = false.
Proof. each_ascii c; vm_compute; intro H; try discriminate; auto. Qed.

Lemma str_eqb_eq a b : str_eqb a b = true <-> a = b.
Proof.
  revert b. induction a as [|x a IH]; intros [|y b]; simpl;
    try (split; [reflexivity|reflexivity]);
    try (split; discriminate).
  rewrite andb_true_iff, Ascii.eqb_eq, IH. split.
  - intros [-> ->]. reflexivity.
  - intro H. inversion H. auto.
Qed.

Lemma strip_prefix_Some p s rest :
  strip_prefix p s = Some rest <-> s = p ++ rest.
Proof.
  revert s. induction p as [|x p IH]; intros s; simpl.
  - split; [intro H; inversion H; reflexivity | intros ->; reflexivity].
  - destruct s as [|y s]; [split; discriminate|].
    destruct (Ascii.eqb x y) eqn:E.
    + apply Ascii.eqb_eq in E. subst y. rewrite IH. split.
      * intros ->. reflexivity.
      * intro H. inversion H. reflexivity.
    + apply Ascii.eqb_neq in E. split; [discriminate|].
      intro H. inversion H. congruence.
Qed.

Lemma strip_prefix_app p rest : strip_prefix p (p ++ rest) = Some rest.
Proof. now apply strip_prefix_Some. Qed.

(** ** find_param *)

Lemma take_word_spec s w r :
  take_word s = (w, r) ->
  s = w ++ r /\ forallb is_word w = true /\ ends_word r.
Proof.
  revert w r. induction s as [|c s IH]; intros w r; simpl.
  - intro H. inversion H. simpl. auto.
  - destruct (is_word c) eqn:Hc.
    + destruct (take_word s) as [w' r'] eqn:Hw.
      intro H. inversion H; subst. destruct (IH _ _ eq_refl) as (-> & Hall & He).
      simpl. rewrite Hc, Hall. auto.
    + intro H. inversion H; subst. simpl. auto.
Qed.

Lemma take_word_app w r :
  forallb is_word w = true -> ends_word r -> take_word (w ++ r) = (w, r).
Proof.
  induction w as [|c w IH]; simpl; intros Hw Hr.
  - destruct r as [|c r]; [reflexivity|]. simpl in *. rewrite Hr. reflexivity.
  - apply andb_true_iff in Hw. destruct Hw as [Hc Hw].
    rewrite Hc, (IH Hw Hr). reflexivity.
Qed.

Lemma no_parameter_nil : no_parameter [].
Proof. intros [|x l] c r H; discriminate. Qed.

Lemma no_parameter_cons c s :
  no_parameter (c :: s) -> no_parameter s.
Proof. intros H l c' r ->. apply (H (c :: l) c' r). reflexivity. Qed.

Lemma no_parameter_cons_other c s :
  (c = ":"%char -> ends_word s) -> no_parameter s -> no_parameter (c :: s).
Proof.
  intros Hc Hs [|x l] c' r H.
  - inversion H; subst. apply (Hc eq_refl).
  - inversion H; subst. apply (Hs l c' r). reflexivity.
Qed.

Lemma take_word_nil s r :
  take_word s = ([], r) -> ends_word s.
Proof.
  destruct s as [|c s]; simpl; [auto|].
  destruct (is_word c) eqn:Hc; [|auto].
  destruct (take_word s). discriminate.
Qed.

Lemma find_param_None s : find_param s = None -> no_parameter s.
Proof.
  induction s as [|c s IH]; simpl; [intros _; apply no_parameter_nil|].
  destruct (find_param s) as [[[b n] a]|] eqn:Hf.
  - destruct (Ascii.eqb c ":"); [|discriminate].
    destruct (take_word s) as [[|x w] r]; discriminate.
  - destruct (Ascii.eqb c ":") eqn:Hc.
    + destruct (take_word s) as [[|x w] r] eqn:Hw; [|discriminate].
      intros _. apply no_parameter_cons_other; [|auto].
      intros _. eapply take_word_nil; eauto.
    + intros _. apply no_parameter_cons_other; [|auto].
      apply Ascii.eqb_neq in Hc. contradiction.
Qed.

Lemma find_param_Some s b n a :
  find_param s = Some (b, n, a) -> parameter_at s b n a.
Proof.
  revert b n a. induction s as [|c s IH]; simpl; intros b n a; [discriminate|].
  assert (Hskip :
    match find_param s with
    | Some (before, name, after) => Some (c :: before, name, after)
    | None => None
    end = Some (b, n, a) ->
    (c = ":"%char -> ends_word s) -> parameter_at (c :: s) b n a).
  { destruct (find_param s) as [[[b' n'] a']|]; [|discriminate].
    intros H Hc. inversion H; subst.
    destruct (IH _ _ _ eq_refl) as (-> & Hn & Hw & He & Hb).
    repeat split; auto.
    apply no_parameter_cons_other; [|exact Hb].
    intro Hcc. specialize (Hc Hcc). destruct b' as [|x b']; simpl in *.
    + reflexivity.
    + exact Hc. }
  destruct (Ascii.eqb c ":") eqn:Hc.
  - apply Ascii.eqb_eq in Hc. subst c.
    destruct (take_word s) as [[|x w] r] eqn:Hw.
    + intro H. apply Hskip; [exact H|]. intros _. eapply take_word_nil; eauto.
    + intro H. inversion H; subst.
      destruct (take_word_spec _ _ _ Hw) as (-> & Hall & He).
      repeat split; auto; [discriminate | apply no_parameter_nil].
  - intro H. apply Hskip; [exact H|]. apply Ascii.eqb_neq in Hc. contradiction.
Qed.

Lemma parameter_at_find s b n a :
  parameter_at s b n a -> find_param s = Some (b, n, a).
Proof.
  intros (-> & Hn & Hw & He & Hb).
  induction b as [|c b IH]; simpl.
  - rewrite (take_word_app _ _ Hw He). destruct n; [contradiction|reflexivity].
  - rewrite (IH (no_parameter_cons _ _ Hb)).
    destruct (Ascii.eqb c ":") eqn:Hc; [|reflexivity].
    apply Ascii.eqb_eq in Hc. subst c.
    assert (ends_word (b ++ ":"%char :: n ++ a)) as Hend.
    { destruct b as [|x b]; simpl; [reflexivity|].
      apply (Hb [] x b). reflexivity. }
    destruct (take_word (b ++ ":"%char :: n ++ a)) as [[|x w] r] eqn:Ht;
      [reflexivity|].
    apply take_word_spec in Ht. destruct Ht as (Heq & Hall & _).
    simpl in Hall. apply andb_true_iff in Hall. destruct Hall as [Hx _].
    destruct (b ++ ":"%char :: n ++ a) as [|y t]; [discriminate|].
    simpl in Heq. inversion Heq; subst. simpl in Hend. congruence.
Qed.

Lemma no_parameter_find s : no_parameter s -> find_param s = None.
Proof.
  intro H. destruct (find_param s) as [[[b n] a]|] eqn:Hf; [|reflexivity].
  apply find_param_Some in Hf. destruct Hf as (-> & Hn & Hw & _).
  destruct n as [|x n]; [contradiction|].
  simpl in Hw. apply andb_true_iff in Hw. destruct Hw as [Hx _].
  specialize (H b x (n ++ a) eq_refl). congruence.
Qed.

(** ** The parser on plain text and on the inserted group *)

Lemma pattern_char_eqbs c :
  pattern_char c = true ->
  Ascii.eqb c "(" = false /\ Ascii.eqb c "^" = false /\ Ascii.eqb c "$" = false
  /\ Ascii.eqb c "." = false /\ unmodelled_syntax c = false.
Proof. each_ascii c; vm_compute; intro H; try discriminate; auto. Qed.

Lemma parse_Top_char c s :
  pattern_char c = true ->
  parse Top (c :: s) = ts <~ parse Top s ;; Returns (Chr c :: ts).
Proof.
  intro H. destruct (pattern_char_eqbs c H) as (H1 & H2 & H3 & H4 & H5).
  cbn [parse]. rewrite H1, H2, H3, H4, H5. reflexivity.
Qed.

Lemma parse_Top_plain b rest :
  forallb pattern_char b = true ->
  parse Top (b ++ rest) = ts <~ parse Top rest ;; Returns (map Chr b ++ ts).
Proof.
  induction b as [|c b IH]; intro H.
  - simpl. destruct (parse Top rest); reflexivity.
  - simpl in H. apply andb_true_iff in H. destruct H as [Hc Hb].
    simpl app. rewrite (parse_Top_char c _ Hc), (IH Hb).
    destruct (parse Top rest); reflexivity.
Qed.

Lemma parse_Name_word n acc rest :
  forallb is_word n = true ->
  parse (Name acc) (n ++ ">"%char :: rest)
  = parse (Name (acc ++ n)) (">"%char :: rest).
Proof.
  revert acc. induction n as [|c n IH]; intros acc H.
  - rewrite app_nil_r. reflexivity.
  - simpl in H. apply andb_true_iff in H. destruct H as [Hc Hn].
    destruct (word_chars c Hc) as (_ & Hg & Hgt & _).
    simpl app. cbn [parse]. rewrite Hgt, Hg, (IH _ Hn), <- app_assoc.
    reflexivity.
Qed.

Lemma parse_group n rest :
  forallb is_word n = true -> valid_group_name n = true ->
  parse Top (lit "(?<" ++ n ++ lit ">[^/]+)" ++ rest)
  = ts <~ parse Top rest ;; Returns (Group n :: ts).
Proof.
  intros Hw Hv.
  change (parse Top (lit "(?<" ++ n ++ lit ">[^/]+)" ++ rest))
    with (parse (Name []) (n ++ ">"%char :: lit "[^/]+)" ++ rest)).
  rewrite (parse_Name_word _ _ _ Hw). simpl app.
  destruct n as [|c n]; [discriminate|].
  simpl in Hv. apply negb_true_iff in Hv.
  cbn [parse Ascii.eqb Bool.eqb]. rewrite Hv. reflexivity.
Qed.

Lemma parse_Top_end : parse Top (lit "$") = Returns [Eol].
Proof. reflexivity. Qed.

Lemma group_names_chars b ts :
  group_names (map Chr b ++ ts) = group_names ts.
Proof. induction b; simpl; auto. Qed.

Lemma forallb_app_true {A} (f : A -> bool) l1 l2 :
  forallb f (l1 ++ l2) = true -> forallb f l1 = true /\ forallb f l2 = true.
Proof. rewrite forallb_app, andb_true_iff. auto. Qed.

Lemma RegExp_plain def :
  plain_definition def = true ->
  RegExp (lit "^" ++ replace_param def ++ lit "$") = Returns (terms_of def).
Proof.
  unfold plain_definition, RegExp, replace_param, terms_of.
  rewrite andb_true_iff. intros [Hp Hv].
  destruct (find_param def) as [[[b n] a]|] eqn:Hf.
  - destruct (find_param_Some _ _ _ _ Hf) as (-> & Hn & Hw & _).
    apply forallb_app_true in Hp. destruct Hp as [Hb Hp].
    simpl in Hp. apply forallb_app_true in Hp. destruct Hp as [_ Ha].
    change (lit "^" ++ ?x) with ("^"%char :: x).
    cbn [parse Ascii.eqb Bool.eqb].
    rewrite <- !app_assoc.
    rewrite (parse_Top_plain b _ Hb).
    rewrite (parse_group n _ Hw Hv).
    rewrite (parse_Top_plain a _ Ha), parse_Top_end.
    cbn [rbind group_names]. rewrite group_names_chars.
    cbn [group_names]. rewrite group_names_chars. reflexivity.
  - change (lit "^" ++ ?x) with ("^"%char :: x).
    cbn [parse Ascii.eqb Bool.eqb].
    rewrite (parse_Top_plain def _ Hp), parse_Top_end.
    cbn [rbind group_names]. rewrite group_names_chars. reflexivity.
Qed.

(** ** The matcher *)

Lemma run_chars b ts start s :
  run (map Chr b ++ ts) start s
  = match strip_prefix b s with
    | Some s' => run ts (start && is_empty b) s'
    | None => None
    end.
Proof.
  revert start s. induction b as [|c b IH]; intros start s; simpl.
  - rewrite andb_true_r. reflexivity.
  - destruct s as [|c' s]; [reflexivity|].
    destruct (Ascii.eqb c c'); [|reflexivity].
    rewrite IH, andb_false_r. simpl. reflexivity.
Qed.

Lemma run_end start s r :
  run [Eol] start s = Some r <-> s = [] /\ r = [].
Proof.
  simpl. destruct s; simpl; split; try discriminate.
  - intro H. inversion H. auto.
  - intros [_ ->]. reflexivity.
  - intros [H _]. discriminate.
Qed.

Lemma run_tail a start s r :
  run (map Chr a ++ [Eol]) start s = Some r <-> s = a /\ r = [].
Proof.
  rewrite run_chars. destruct (strip_prefix a s) as [s'|] eqn:Hs.
  - apply strip_prefix_Some in Hs. subst s. rewrite run_end. split.
    + intros [-> ->]. rewrite app_nil_r. auto.
    + intros [H ->]. split; [|reflexivity].
      rewrite <- (app_nil_r a) in H at 2. now apply app_inv_head in H.
  - split; [discriminate|]. intros [-> _].
    pose proof (strip_prefix_app a []) as H. rewrite app_nil_r in H. congruence.
Qed.

Lemma take_segment_sound rest name taken s r :
  take_segment rest name taken s = Some r ->
  exists segment s' r',
    segment <> [] /\ no_slash segment /\ s = segment ++ s'
    /\ rest s' = Some r' /\ r = (name, taken ++ segment) :: r'.
Proof.
  revert taken. induction s as [|c s IH]; intros taken; simpl; [discriminate|].
  destruct (Ascii.eqb c "/") eqn:Hc; [discriminate|].
  apply Ascii.eqb_neq in Hc.
  destruct (take_segment rest name (taken ++ [c]) s) as [g|] eqn:Ht.
  - intro H. inversion H; subst g.
    destruct (IH _ Ht) as (seg & s' & r' & Hne & Hns & -> & Hr & ->).
    exists (c :: seg), s', r'. repeat split; auto; try discriminate.
    + intros [Hin|Hin]; [congruence|contradiction].
    + rewrite <- app_assoc. reflexivity.
  - destruct (rest s) as [r'|] eqn:Hr; [|discriminate].
    intro H. inversion H. exists [c], s, r'.
    repeat split; auto; try discriminate.
    intros [Hin|[]]. congruence.
Qed.

Lemma take_segment_complete rest name taken segment s' r' :
  segment <> [] -> no_slash segment -> rest s' = Some r' ->
  take_segment rest name taken (segment ++ s') <> None.
Proof.
  revert taken. induction segment as [|c seg IH]; intros taken Hne Hns Hr;
    [contradiction|].
  simpl. destruct (Ascii.eqb c "/") eqn:Hc.
  { apply Ascii.eqb_eq in Hc. exfalso. apply Hns. left. auto. }
  destruct seg as [|c2 seg].
  - simpl. destruct (take_segment rest name (taken ++ [c]) s');
      [discriminate|]. rewrite Hr. discriminate.
  - assert (take_segment rest name (taken ++ [c]) ((c2 :: seg) ++ s') <> None)
      as H.
    { apply IH; auto; [discriminate|]. intro H. apply Hns. right. exact H. }
    destruct (take_segment rest name (taken ++ [c]) ((c2 :: seg) ++ s'));
      [discriminate|contradiction].
Qed.

Lemma run_group name a start s r :
  run (Group name :: map Chr a ++ [Eol]) start s = Some r
  <-> exists segment,
        segment <> [] /\ no_slash segment /\ s = segment ++ a
        /\ r = [(name, segment)].
Proof.
  cbn [run]. split.
  - intro H. apply take_segment_sound in H.
    destruct H as (seg & s' & r' & Hne & Hns & -> & Hr & ->).
    apply run_tail in Hr. destruct Hr as [-> ->]. exists seg. auto.
  - intros (seg & Hne & Hns & -> & ->).
    assert (run (map Chr a ++ [Eol]) false a = Some []) as Hr
      by (apply run_tail; auto).
    pose proof (take_segment_complete _ name [] seg a [] Hne Hns Hr) as Hc.
    destruct (take_segment (run (map Chr a ++ [Eol]) false) name [] (seg ++ a))
      as [r|] eqn:Ht; [|contradiction].
    apply take_segment_sound in Ht.
    destruct Ht as (seg' & s' & r' & _ & _ & Heq & Hr' & ->).
    apply run_tail in Hr'. destruct Hr' as [-> ->].
    apply app_inv_tail in Heq. subst seg'. reflexivity.
Qed.

Lemma exec_Bol_later ts s : exec (Bol :: ts) false s = None.
Proof. induction s as [|c s IH]; simpl; auto. Qed.

Lemma String_match_Bol ts s :
  String_match s (Bol :: ts) = run ts true s.
Proof.
  unfold String_match. destruct s as [|c s]; simpl.
  - destruct (run ts true []); reflexivity.
  - destruct (run ts true (c :: s)); [reflexivity|apply exec_Bol_later].
Qed.

Lemma String_match_terms_of pathname def r :
  String_match pathname (terms_of def) = Some r <-> route_matches pathname def r.
Proof.
  unfold terms_of, route_matches.
  destruct (find_param def) as [[[b n] a]|] eqn:Hf; rewrite String_match_Bol.
  - rewrite run_chars.
    pose proof (find_param_Some _ _ _ _ Hf) as Hp. split.
    + destruct (strip_prefix b pathname) as [s'|] eqn:Hs; [|discriminate].
      apply strip_prefix_Some in Hs. subst pathname.
      intro H. apply run_group in H. destruct H as (seg & Hne & Hns & -> & ->).
      right. exists b, n, a, seg. auto.
    + intros [(Hnp & _)|(b' & n' & a' & seg & Hp' & Hne & Hns & -> & ->)].
      { apply no_parameter_find in Hnp. congruence. }
      apply parameter_at_find in Hp'. rewrite Hf in Hp'.
      inversion Hp'; subst b' n' a'.
      rewrite strip_prefix_app. apply run_group. exists seg. auto.
  - split.
    + intro H. apply run_tail in H. destruct H as [-> ->].
      left. split; [now apply find_param_None|auto].
    + intros [(_ & -> & ->)|(b' & n' & a' & seg & Hp' & _)].
      * apply run_tail. auto.
      * apply parameter_at_find in Hp'. congruence.
Qed.

Lemma matchRoute_plain pathname def :
  plain_definition def = true ->
  matchRoute pathname def = Returns (String_match pathname (terms_of def)).
Proof.
  intro H. unfold matchRoute. rewrite (RegExp_plain def H). cbn [rbind].
  destruct (String_match pathname (terms_of def)); reflexivity.
Qed.

(** ** The properties of matchRoute and updateRoute *)

(** C9, as amended.  For every pathname and every route definition whose
    characters all stand for themselves in a regular expression and whose
    parameter name does not start with a digit, [matchRoute] returns: it
    returns the binding of the first [:]-parameter exactly when the whole
    pathname is the definition with the parameter replaced by one non-empty
    segment without [/] (the empty bindings when the definition has no
    parameter and the pathname is the definition), and it returns
    [undefined] for every other pathname. *)
Theorem matchRoute_plain_definition (pathname def : str) :
  plain_definition def = true ->
  (exists r, matchRoute pathname def = Returns r)
  /\ (forall bindings,
        matchRoute pathname def = Returns (Some bindings)
        <-> route_matches pathname def bindings)
  /\ (matchRoute pathname def = Returns None
      <-> forall bindings, ~ route_matches pathname def bindings).
Proof.
  intro H. rewrite (matchRoute_plain pathname def H).
  split; [eauto|]. split.
  - intro b. rewrite <- String_match_terms_of. split.
    + intro E. inversion E. reflexivity.
    + intros ->. reflexivity.
  - split.
    + intros E b Hb. apply String_match_terms_of in Hb. congruence.
    + intro Hn. destruct (String_match pathname (terms_of def)) as [b|] eqn:E;
        [|reflexivity].
      apply String_match_terms_of in E. exfalso. exact (Hn b E).
Qed.

(** C5.  [updateRoute] on an [ExternalLink] calls [externalNavigate] with it
    and assigns nothing to [window.location.hash]; on a string or an
    [InternalLink] with a non-empty route it assigns
    ['/settings-x/' + route]; on the empty route it assigns
    ['/settings-x']. *)
Theorem updateRoute_routes :
  (forall link,
     updateRoute (ToExternal link) = [externalNavigate link]
     /\ forall value, ~ In (set_location_hash value)
                           (updateRoute (ToExternal link)))
  /\ (forall route, route <> [] ->
        updateRoute (ToString route)
        = [set_location_hash (lit "/settings-x/" ++ route)])
  /\ (forall link, InternalLink.route link <> [] ->
        updateRoute (ToInternal link)
        = [set_location_hash (lit "/settings-x/" ++ InternalLink.route link)])
  /\ updateRoute (ToString []) = [set_location_hash (lit "/settings-x")]
  /\ (forall link, InternalLink.route link = [] ->
        updateRoute (ToInternal link) = [set_location_hash (lit "/settings-x")]).
Proof.
  repeat split.
  - intros value [H|[]]. discriminate.
  - intros [|c route] H; [contradiction|reflexivity].
  - intros [e [|c route]] H; [contradiction|reflexivity].
  - intros [e route] H. simpl in H. subst route. reflexivity.
Qed.

Lemma path_plain_chars c :
  path_plain c = true ->
  (is_slash c = true -> c = "/"%char)
  /\ (is_slash c = false ->
      Ascii.eqb c "?" = false /\ Ascii.eqb c "#" = false
      /\ non_ascii c = false /\ path_set c = false)
  /\ is_slash c = Ascii.eqb c "/"
  /\ c0_control_or_space c = false /\ tab_or_newline c = false
  /\ line_terminator c = false.
Proof.
  each_ascii c; vm_compute; intro H; try discriminate;
    repeat split; intros; try discriminate; reflexivity.
Qed.

Lemma query_plain_chars c :
  query_plain c = true ->
  Ascii.eqb c "#" = false /\ non_ascii c = false
  /\ special_query_set c = false
  /\ c0_control_or_space c = false /\ tab_or_newline c = false.
Proof.
  each_ascii c; vm_compute; intro H; try discriminate; repeat split.
Qed.

Lemma serialize_app path path' :
  serialize (path ++ path') = serialize path ++ serialize path'.
Proof.
  induction path as [|seg path IH]; simpl; [reflexivity|].
  rewrite IH, <- app_assoc. reflexivity.
Qed.

Lemma close_segment_plain path buffer at_slash :
  dot_segment buffer = false ->
  close_segment path buffer at_slash = path ++ [buffer].
Proof.
  unfold dot_segment, close_segment. intro H.
  apply orb_false_iff in H. destruct H as [-> ->]. reflexivity.
Qed.

Lemma query_state_plain q :
  forallb query_plain q = true -> query_state q = Returns q.
Proof.
  induction q as [|c q IH]; simpl; [reflexivity|].
  intro H. apply andb_true_iff in H. destruct H as [Hc Hq].
  destruct (query_plain_chars c Hc) as (H1 & H2 & H3 & _).
  rewrite H1, H2, (IH Hq). unfold encode_with. rewrite H3. reflexivity.
Qed.

Lemma path_state_plain p : forall path buffer q,
  forallb path_plain p = true ->
  segments_ok buffer p = true ->
  forallb query_plain (nullish q []) = true ->
  path_state path buffer (p ++ query_suffix q)
  = Returns {| pathname := serialize path ++ "/"%char :: buffer ++ p;
               query := q |}.
Proof.
  induction p as [|c p IH]; intros path buffer q Hp Hs Hq.
  - simpl in Hs. apply negb_true_iff in Hs. rewrite app_nil_r. simpl app.
    destruct q as [q|]; simpl.
    + simpl in Hq. rewrite (query_state_plain q Hq). cbn [rbind].
      rewrite (close_segment_plain _ _ _ Hs), serialize_app. simpl.
      rewrite app_nil_r. reflexivity.
    + rewrite (close_segment_plain _ _ _ Hs), serialize_app. simpl.
      rewrite app_nil_r. reflexivity.
  - simpl in Hp. apply andb_true_iff in Hp. destruct Hp as [Hc Hp].
    destruct (path_plain_chars c Hc) as (Hslash & Hother & Heq & _).
    simpl app. cbn [path_state]. simpl in Hs. rewrite <- Heq in Hs.
    destruct (is_slash c) eqn:Hsl.
    + apply andb_true_iff in Hs. destruct Hs as [Hd Hs].
      apply negb_true_iff in Hd. rewrite (Hslash eq_refl).
      rewrite (close_segment_plain _ _ _ Hd).
      rewrite (IH _ _ _ Hp Hs Hq), serialize_app. simpl.
      rewrite app_nil_r, <- !app_assoc. reflexivity.
    + destruct (Hother eq_refl) as (H1 & H2 & H3 & H4).
      rewrite H1, H2, H3. unfold encode_with. rewrite H4.
      rewrite (IH _ _ _ Hp Hs Hq), <- !app_assoc. reflexivity.
Qed.

Lemma drop_while_visible s :
  forallb visible s = true -> drop_while c0_control_or_space s = s.
Proof.
  destruct s as [|c s]; simpl; [reflexivity|].
  intro H. apply andb_true_iff in H. destruct H as [H _].
  unfold visible in H. apply andb_true_iff in H. destruct H as [H _].
  apply negb_true_iff in H. rewrite H. reflexivity.
Qed.

Lemma forallb_rev {A} (f : A -> bool) l :
  forallb f (rev l) = forallb f l.
Proof.
  induction l as [|x l IH]; simpl; [reflexivity|].
  rewrite forallb_app, IH. simpl. rewrite andb_true_r. apply andb_comm.
Qed.

Lemma preprocess_visible s :
  forallb visible s = true -> preprocess s = s.
Proof.
  intro H. unfold preprocess. rewrite (drop_while_visible s H).
  rewrite drop_while_visible by (rewrite forallb_rev; exact H).
  rewrite rev_involutive.
  induction s as [|c s IH]; simpl; [reflexivity|].
  simpl in H. apply andb_true_iff in H. destruct H as [Hc Hs].
  unfold visible in Hc. apply andb_true_iff in Hc. destruct Hc as [_ Hc].
  rewrite Hc, (IH Hs). reflexivity.
Qed.

Lemma path_plain_visible p :
  forallb path_plain p = true -> forallb visible p = true.
Proof.
  induction p as [|c p IH]; simpl; [reflexivity|].
  intro H. apply andb_true_iff in H. destruct H as [Hc Hp].
  destruct (path_plain_chars c Hc) as (_ & _ & _ & H1 & H2 & _).
  rewrite (IH Hp). unfold visible. rewrite H1, H2. reflexivity.
Qed.

Lemma query_plain_visible q :
  forallb query_plain q = true -> forallb visible q = true.
Proof.
  induction q as [|c q IH]; simpl; [reflexivity|].
  intro H. apply andb_true_iff in H. destruct H as [Hc Hq].
  destruct (query_plain_chars c Hc) as (_ & _ & _ & H1 & H2).
  rewrite (IH Hq). unfold visible. rewrite H1, H2. reflexivity.
Qed.

Lemma new_URL_plain base p q :
  simple_base base = true ->
  forallb path_plain p = true ->
  no_dot_segments p = true ->
  starts_with_slash p = false ->
  forallb query_plain (nullish q []) = true ->
  new_URL ("/"%char :: p ++ query_suffix q) base
  = Returns {| pathname := "/"%char :: p; query := q |}.
Proof.
  intros Hb Hp Hd Hs Hq. unfold new_URL. rewrite Hb.
  rewrite preprocess_visible.
  2:{ simpl. rewrite forallb_app, (path_plain_visible p Hp). simpl.
      destruct q as [q|]; simpl; [|reflexivity].
      simpl in Hq. apply (query_plain_visible q Hq). }
  cbn [has_scheme is_alpha andb]. change (is_alpha "/") with false.
  cbn [andb relative_state]. change (is_slash "/") with true. cbv iota.
  assert (path_state [] [] (p ++ query_suffix q)
          = Returns {| pathname := "/"%char :: p; query := q |}) as Hps.
  { rewrite (path_state_plain p [] [] q Hp Hd Hq). reflexivity. }
  destruct p as [|c p].
  - destruct q as [q|]; simpl app; [|exact Hps].
    change (is_slash "?") with false. cbv iota. exact Hps.
  - simpl in Hs. simpl in Hp. apply andb_true_iff in Hp. destruct Hp as [Hc _].
    destruct (path_plain_chars c Hc) as (_ & _ & Heq & _).
    rewrite <- Heq in Hs. cbn [app] in *. rewrite Hs. exact Hps.
Qed.

(** ** getHashPath *)

Lemma after_first_Some pat s rest :
  after_first pat s = Some rest -> occurs pat s.
Proof.
  induction s as [|c s IH]; simpl.
  - destruct (strip_prefix pat []) as [r|] eqn:E; [|discriminate].
    intros _. apply strip_prefix_Some in E. exists [], r. exact E.
  - destruct (strip_prefix pat (c :: s)) as [r|] eqn:E.
    + intros _. apply strip_prefix_Some in E. exists [], r. exact E.
    + intro H. destruct (IH H) as (l & r & ->). exists (c :: l), r. reflexivity.
Qed.

Lemma after_first_None pat s :
  after_first pat s = None <-> ~ occurs pat s.
Proof.
  split.
  - induction s as [|c s IH]; simpl.
    + destruct (strip_prefix pat []) as [r|] eqn:E; [discriminate|].
      intros _ (l & r & H). destruct l; [|discriminate].
      simpl in H. apply strip_prefix_Some in H. congruence.
    + destruct (strip_prefix pat (c :: s)) as [r|] eqn:E; [discriminate|].
      intros H (l & r & Heq). destruct l as [|x l].
      * simpl in Heq. apply strip_prefix_Some in Heq. congruence.
      * inversion Heq; subst. apply (IH H). exists l, r. reflexivity.
  - intro H. destruct (after_first pat s) as [r|] eqn:E; [|reflexivity].
    exfalso. apply H. eapply after_first_Some; eauto.
Qed.

Lemma take_line_plain p :
  forallb path_plain p = true -> take_line p = p.
Proof.
  induction p as [|c p IH]; simpl; [reflexivity|].
  intro H. apply andb_true_iff in H. destruct H as [Hc Hp].
  destruct (path_plain_chars c Hc) as (_ & _ & _ & _ & _ & H1).
  rewrite H1, (IH Hp). reflexivity.
Qed.

Lemma after_first_prefix pat rest :
  after_first pat (pat ++ rest) = Some rest.
Proof.
  destruct (pat ++ rest) as [|c s] eqn:E; simpl; rewrite <- E;
    rewrite strip_prefix_app; reflexivity.
Qed.

Lemma getHashPath_settings path :
  forallb path_plain path = true ->
  getHashPath (Some ("/"%char :: lit "settings-x/" ++ path)) = Some path.
Proof.
  intro H. unfold getHashPath.
  change ("/"%char :: lit "settings-x/" ++ path)
    with (lit "/settings-x/" ++ path).
  rewrite after_first_prefix, (take_line_plain path H). reflexivity.
Qed.

Lemma getHashPath_absent urlPath :
  ~ occurs (lit "/settings-x/") urlPath ->
  getHashPath (Some urlPath) = None.
Proof.
  intro H. unfold getHashPath. destruct urlPath as [|c u]; [reflexivity|].
  apply after_first_None in H. rewrite H. reflexivity.
Qed.

(** ** The table of modal paths *)

Lemma modalPaths_plain :
  forallb (fun e => plain_definition (fst e)) modalPaths = true.
Proof. vm_compute. reflexivity. Qed.

Lemma modalPaths_nonempty :
  forallb (fun e => negb (is_empty (fst e)) && negb (is_empty (snd e)))
          modalPaths = true.
Proof. vm_compute. reflexivity. Qed.

Lemma modalPaths_distinct : distinct (map fst modalPaths) = true.
Proof. vm_compute. reflexivity. Qed.


Lemma modalPaths_In_plain pat name :
  In (pat, name) modalPaths -> plain_definition pat = true.
Proof.
  intro H. pose proof modalPaths_plain as Hall.
  rewrite forallb_forall in Hall. exact (Hall _ H).
Qed.

Lemma matches_matchesb pathname pat :
  plain_definition pat = true ->
  (matches pathname pat <-> matchesb pathname pat = true).
Proof.
  intro H. unfold matches, matchesb. rewrite (matchRoute_plain _ _ H).
  destruct (String_match pathname (terms_of pat)) as [b|]; split.
  - reflexivity.
  - intros _. eauto.
  - intros [b E]. discriminate.
  - discriminate.
Qed.

Lemma distinct_keys (entries : list (str * ModalName)) k v v' :
  distinct (map fst entries) = true ->
  In (k, v) entries -> In (k, v') entries -> v = v'.
Proof.
  induction entries as [|[k0 v0] entries IH]; simpl; [contradiction|].
  rewrite andb_true_iff, negb_true_iff. intros [Hn Hd] [H1|H1] [H2|H2].
  - congruence.
  - inversion H1; subst. exfalso.
    assert (existsb (str_eqb k) (map fst entries) = true) as Hex.
    { apply existsb_exists. exists k. split; [|now apply str_eqb_eq].
      apply in_map_iff. exists (k, v'). auto. }
    congruence.
  - inversion H2; subst. exfalso.
    assert (existsb (str_eqb k) (map fst entries) = true) as Hex.
    { apply existsb_exists. exists k. split; [|now apply str_eqb_eq].
      apply in_map_iff. exists (k, v). auto. }
    congruence.
  - exact (IH Hd H1 H2).
Qed.

Lemma find_entry_plain p entries :
  forallb (fun e => plain_definition (fst e)) entries = true ->
  find_entry p entries = Returns (find (fun e => matchesb p (fst e)) entries).
Proof.
  induction entries as [|[pat name] entries IH]; simpl; [reflexivity|].
  rewrite andb_true_iff. intros [Hp Hall].
  rewrite (matchRoute_plain _ _ Hp). cbn [rbind]. unfold matchesb.
  destruct (String_match p (terms_of pat)); [reflexivity|].
  apply (IH Hall).
Qed.

Lemma find_only pathname pat name :
  In (pat, name) modalPaths ->
  matches pathname pat ->
  (forall pat', In pat' (map fst modalPaths) -> matches pathname pat' ->
                pat' = pat) ->
  find (fun e => matchesb pathname (fst e)) modalPaths = Some (pat, name).
Proof.
  intros Hin Hm Huniq.
  destruct (find (fun e => matchesb pathname (fst e)) modalPaths)
    as [[pat' name']|] eqn:F.
  - apply find_some in F. destruct F as [Hin' Hm']. simpl in Hm'.
    assert (pat' = pat) as ->.
    { apply Huniq.
      - apply in_map_iff. exists (pat', name'). auto.
      - apply matches_matchesb; [eapply modalPaths_In_plain; eauto|exact Hm']. }
    rewrite (distinct_keys _ _ _ _ modalPaths_distinct Hin Hin'). reflexivity.
  - exfalso. pose proof (find_none _ _ F _ Hin) as Hn. simpl in Hn.
    apply matches_matchesb in Hm; [congruence|].
    eapply modalPaths_In_plain; eauto.
Qed.

Lemma find_nothing pathname :
  (forall pat, In pat (map fst modalPaths) -> ~ matches pathname pat) ->
  find (fun e => matchesb pathname (fst e)) modalPaths = None.
Proof.
  intro H.
  destruct (find (fun e => matchesb pathname (fst e)) modalPaths)
    as [[pat name]|] eqn:F; [|reflexivity].
  apply find_some in F. destruct F as [Hin Hm]. simpl in Hm. exfalso.
  apply (H pat).
  - apply in_map_iff. exists (pat, name). auto.
  - apply matches_matchesb; [eapply modalPaths_In_plain; eauto|exact Hm].
Qed.

Lemma matches_shape pat path :
  plain_definition pat = true -> matches path pat -> shape_of pat path.
Proof.
  intros Hp [b Hm]. rewrite (matchRoute_plain path pat Hp) in Hm.
  assert (String_match path (terms_of pat) = Some b) as Hs
    by (inversion Hm; reflexivity).
  clear Hm. apply String_match_terms_of in Hs. rename Hs into Hm.
  unfold shape_of.
  destruct Hm as [(Hn & -> & _)|(be & n & a & seg & Hpa & Hne & Hns & -> & _)].
  - rewrite (no_parameter_find _ Hn). reflexivity.
  - rewrite (parameter_at_find _ _ _ _ Hpa). eauto.
Qed.

Ltac shape H :=
  apply matches_shape in H; [|reflexivity];
  unfold shape_of in H;
  let t := type of H in
  match t with
  | context [find_param ?p] =>
      let v := eval vm_compute in (find_param p) in
      change (find_param p) with v in H
  end; cbv beta iota in H.

(** No pathname matches two patterns of the table. *)
Lemma modalPaths_at_most_one path pat pat' :
  In pat (map fst modalPaths) -> In pat' (map fst modalPaths) ->
  matches path pat -> matches path pat' -> pat = pat'.
Proof.
  intros Hin Hin' Hm Hm'. simpl in Hin.
  repeat (destruct Hin as [<-|Hin];
    [ shape Hm;
      simpl in Hin';
      repeat (destruct Hin' as [<-|Hin'];
        [ first [ reflexivity
                | exfalso; shape Hm';
                  repeat match goal with
                         | H : exists _, _ |- _ => destruct H as (? & ? & ? & ?)
                         end;
                  subst; cbn in *;
                  match goal with
                  | H : _ = _ |- _ => solve [inversion H]
                  end ] |]);
      destruct Hin' |]);
  destruct Hin.
Qed.

(** ** handleNavigation, once the URL is parsed *)

Lemma handleNavigation_after_URL location currentRoute u :
  new_URL (skipn 1 (hash location))
          (protocol location ++ lit "//" ++ hostname location) = Returns u ->
  handleNavigation location currentRoute
  = Returns (navigation_of currentRoute (getHashPath (Some (pathname u)))
                           (URL_searchParams u)).
Proof.
  intro H. unfold handleNavigation. rewrite H. cbn [rbind].
  unfold navigation_of.
  destruct (getHashPath (Some (pathname u))) as [[|c p]|]; try reflexivity.
  rewrite !(find_entry_plain _ _ modalPaths_plain). cbn [rbind].
  destruct (find (fun e => matchesb (c :: p) (fst e)) modalPaths)
    as [[path name]|] eqn:F; [|reflexivity].
  apply find_some in F. destruct F as [Hin _].
  rewrite (matchRoute_plain _ _ (modalPaths_In_plain _ _ Hin)).
  destruct (negb (is_empty path) && negb (is_empty name)); reflexivity.
Qed.



(** ** Further properties of the router *)

(** X10.  The replacement in [matchRoute] acts on the first [:]-parameter
    only, read greedily: [find_param] splits a definition at the leftmost
    [:] that is followed by a word character, the name being the longest
    run of word characters after it; and it finds nothing exactly when no
    [:] is followed by a word character. *)
Theorem find_param_first_parameter (def : str) :
  (forall before name after,
     find_param def = Some (before, name, after)
     <-> parameter_at def before name after)
  /\ (find_param def = None <-> no_parameter def)
  /\ (forall before name after,
        find_param def = Some (before, name, after) ->
        replace_param def
        = before ++ lit "(?<" ++ name ++ lit ">[^/]+)" ++ after)
  /\ (find_param def = None -> replace_param def = def).
Proof.
  split; [|split; [|split]].
  - intros before name after. split.
    + apply find_param_Some.
    + apply parameter_at_find.
  - split; [apply find_param_None|apply no_parameter_find].
  - intros before name after H. unfold replace_param. rewrite H. reflexivity.
  - intro H. unfold replace_param. rewrite H. reflexivity.
Qed.

Lemma parse_Top_plain_Throws b rest e :
  forallb pattern_char b = true ->
  parse Top rest = Throws e -> parse Top (b ++ rest) = Throws e.
Proof.
  intros Hb Hr. rewrite (parse_Top_plain b rest Hb), Hr. reflexivity.
Qed.

(** X11.  A parameter whose name starts with a digit makes the definition
    unusable: when the text before the first parameter is plain,
    [new RegExp] throws a [SyntaxError] (the group name is invalid), so
    [matchRoute] throws for every pathname, whatever follows the
    parameter. *)
Theorem matchRoute_digit_parameter_throws
    (pathname def before name after : str) :
  find_param def = Some (before, name, after) ->
  forallb pattern_char before = true ->
  valid_group_name name = false ->
  matchRoute pathname def = Throws SyntaxError.
Proof.
  intros Hf Hb Hv. unfold matchRoute, RegExp, replace_param. rewrite Hf.
  destruct (find_param_Some _ _ _ _ Hf) as (_ & Hn & Hw & _).
  assert (parse Top (lit "^" ++
            (before ++ lit "(?<" ++ name ++ lit ">[^/]+)" ++ after) ++ lit "$")
          = Throws SyntaxError) as ->; [|reflexivity].
  change (lit "^" ++ ?x) with ("^"%char :: x).
  cbn [parse Ascii.eqb Bool.eqb].
  assert (parse Top
            ((before ++ lit "(?<" ++ name ++ lit ">[^/]+)" ++ after) ++ lit "$")
          = Throws SyntaxError) as ->; [|reflexivity].
  rewrite <- !app_assoc. apply parse_Top_plain_Throws; [exact Hb|].
  change (parse Top (lit "(?<" ++ ?x)) with (parse (Name []) x).
  change (lit ">[^/]+)" ++ ?x) with (">"%char :: lit "[^/]+)" ++ x).
  rewrite (parse_Name_word _ _ _ Hw). simpl app.
  destruct name as [|c name]; [contradiction|].
  simpl in Hv. apply negb_false_iff in Hv.
  cbn [parse Ascii.eqb Bool.eqb]. rewrite Hv. reflexivity.
Qed.

Lemma after_first_leftmost pat s rest :
  after_first pat s = Some rest ->
  exists l, s = l ++ pat ++ rest
            /\ forall l' rest', s = l' ++ pat ++ rest' ->
                                List.length l <= List.length l'.
Proof.
  revert rest. induction s as [|c s IH]; intros rest; simpl.
  - destruct (strip_prefix pat []) as [r|] eqn:E; [|discriminate].
    intro H. inversion H; subst r. apply strip_prefix_Some in E.
    exists []. split; [exact E|]. intros. simpl. apply Nat.le_0_l.
  - destruct (strip_prefix pat (c :: s)) as [r|] eqn:E.
    + intro H. inversion H; subst r. apply strip_prefix_Some in E.
      exists []. split; [exact E|]. intros. simpl. apply Nat.le_0_l.
    + intro H. destruct (IH _ H) as (l & -> & Hmin).
      exists (c :: l). split; [reflexivity|].
      intros [|x l'] rest' Heq.
      * simpl in Heq. apply strip_prefix_Some in Heq. congruence.
      * inversion Heq; subst x. simpl. apply le_n_S.
        eapply Hmin. eassumption.
Qed.

Lemma take_line_no_terminator s :
  forallb (fun c => negb (line_terminator c)) (take_line s) = true.
Proof.
  induction s as [|c s IH]; simpl; [reflexivity|].
  destruct (line_terminator c) eqn:E; [reflexivity|].
  simpl. rewrite E, IH. reflexivity.
Qed.

(** X12.  [getHashPath] is null for [undefined], for the empty string and
    for every path in which ['/settings-x/'] does not occur, and only for
    these; otherwise it is the text after the first occurrence of
    ['/settings-x/'], wherever in the path it is, cut at the first line
    terminator.  The result never holds a line terminator. *)
Theorem getHashPath_after_first_occurrence :
  getHashPath None = None
  /\ getHashPath (Some []) = None
  /\ (forall urlPath,
        getHashPath (Some urlPath) = None
        <-> ~ occurs (lit "/settings-x/") urlPath)
  /\ (forall urlPath afterSettingsX,
        getHashPath (Some urlPath) = Some afterSettingsX ->
        exists l rest,
          urlPath = l ++ lit "/settings-x/" ++ rest
          /\ first_occurrence (lit "/settings-x/") l urlPath
          /\ afterSettingsX = take_line rest
          /\ forallb (fun c => negb (line_terminator c)) afterSettingsX = true).
Proof.
  split; [reflexivity|]. split; [reflexivity|]. split.
  - intro u. split.
    + intros H Ho. destruct u as [|c u].
      * destruct Ho as ([|x l] & r & Hr); discriminate.
      * unfold getHashPath in H.
        destruct (after_first (lit "/settings-x/") (c :: u)) eqn:E;
          [discriminate|].
        apply after_first_None in E. contradiction.
    + apply getHashPath_absent.
  - intros u r H. destruct u as [|c u]; [discriminate|].
    unfold getHashPath in H.
    destruct (after_first (lit "/settings-x/") (c :: u)) as [rest|] eqn:E;
      [|discriminate].
    inversion H; subst r. clear H.
    destruct (after_first_leftmost _ _ _ E) as (l & Heq & Hmin).
    exists l, rest. split; [exact Heq|]. split; [|split].
    + split; [exists rest; exact Heq|exact Hmin].
    + reflexivity.
    + apply take_line_no_terminator.
Qed.

(** X13.  The lookup in [modalPaths] does not depend on the order of the
    table: no pathname matches two of its patterns, so for a pathname that
    matches a pattern [find] returns the entry of that pattern, and for a
    pathname that matches none it returns nothing. *)
Theorem modal_lookup (pathname : str) :
  (forall pat pat',
     In pat (map fst modalPaths) -> In pat' (map fst modalPaths) ->
     matches pathname pat -> matches pathname pat' -> pat = pat')
  /\ (forall pat name,
        In (pat, name) modalPaths -> matches pathname pat ->
        find_entry pathname modalPaths = Returns (Some (pat, name)))
  /\ ((forall pat, In pat (map fst modalPaths) -> ~ matches pathname pat) ->
      find_entry pathname modalPaths = Returns None).
Proof.
  split; [|split].
  - intros pat pat'. apply modalPaths_at_most_one.
  - intros pat name Hin Hm.
    rewrite (find_entry_plain _ _ modalPaths_plain). f_equal.
    apply find_only; auto.
    intros pat' Hin' Hm'. symmetry.
    apply (modalPaths_at_most_one pathname); auto.
    apply in_map_iff. exists (pat, name). auto.
  - intro Hnone. rewrite (find_entry_plain _ _ modalPaths_plain). f_equal.
    now apply find_nothing.
Qed.

Lemma handleNavigation_Returns location currentRoute nav :
  handleNavigation location currentRoute = Returns nav ->
  exists u,
    new_URL (skipn 1 (hash location))
            (protocol location ++ lit "//" ++ hostname location) = Returns u
    /\ nav = navigation_of currentRoute (getHashPath (Some (pathname u)))
                           (URL_searchParams u).
Proof.
  intro H.
  destruct (new_URL (skipn 1 (hash location))
              (protocol location ++ lit "//" ++ hostname location))
    as [u|e|] eqn:E.
  - exists u. split; [reflexivity|].
    rewrite (handleNavigation_after_URL _ currentRoute _ E) in H.
    inversion H. reflexivity.
  - unfold handleNavigation in H. rewrite E in H. discriminate.
  - unfold handleNavigation in H. rewrite E in H. discriminate.
Qed.

(** X14.  Whenever [handleNavigation] returns with a modal to show, the
    path name is not empty and is the one given to the modal, the modal is
    the one the table gives for a pattern that the path name matches, the
    parameters given to the modal are the bindings of that pattern, and
    [changingModal] is defined; with the empty path name there is neither a
    modal nor [changingModal], and without a modal [changingModal] is
    undefined. *)
Theorem handleNavigation_modal_invariant location currentRoute nav :
  handleNavigation location currentRoute = Returns nav ->
  (forall m, modal nav = Some m ->
     pathName nav <> []
     /\ RoutingModalProps.pathName (props m) = pathName nav
     /\ (exists pat bindings,
           In (pat, modalName m) modalPaths
           /\ matchRoute (pathName nav) pat = Returns (Some bindings)
           /\ RoutingModalProps.params (props m) = Some bindings)
     /\ exists changing, changingModal nav = Some changing)
  /\ (pathName nav = [] -> modal nav = None)
  /\ (modal nav = None -> changingModal nav = None).
Proof.
  intro H. apply handleNavigation_Returns in H.
  destruct H as (u & _ & ->). unfold navigation_of.
  destruct (getHashPath (Some (pathname u))) as [[|c p]|];
    try (cbn; repeat split; intros; discriminate || reflexivity).
  destruct (find (fun e => matchesb (c :: p) (fst e)) modalPaths)
    as [[pat name]|] eqn:F.
  2:{ cbn. repeat split; intros; discriminate || reflexivity. }
  apply find_some in F. destruct F as [Hin Hm]. cbn [fst] in Hm.
  pose proof modalPaths_nonempty as Hne. rewrite forallb_forall in Hne.
  specialize (Hne _ Hin). cbn [fst snd] in Hne. rewrite Hne.
  apply andb_true_iff in Hne. destruct Hne as [_ Hname].
  apply negb_true_iff in Hname. rewrite Hname.
  cbn [modal pathName changingModal]. split; [|split].
  - pose proof (modalPaths_In_plain _ _ Hin) as Hpl.
    unfold matchesb in Hm.
    destruct (String_match (c :: p) (terms_of pat)) as [b|] eqn:E;
      [|discriminate].
    intros m Hmd. inversion Hmd; subst m. cbn. split; [discriminate|].
    split; [reflexivity|]. split; [|eauto].
    exists pat, b. split; [exact Hin|]. split; [|reflexivity].
    rewrite (matchRoute_plain _ _ Hpl), E. reflexivity.
  - discriminate.
  - discriminate.
Qed.

(** X15.  The current route decides [changingModal] only: for two current
    routes [handleNavigation] returns the same path name and shows the same
    modal with the same properties. *)
Theorem handleNavigation_current_route_irrelevant
    location currentRoute currentRoute' nav :
  handleNavigation location currentRoute = Returns nav ->
  exists nav',
    handleNavigation location currentRoute' = Returns nav'
    /\ pathName nav' = pathName nav
    /\ modal nav' = modal nav.
Proof.
  intro H. apply handleNavigation_Returns in H.
  destruct H as (u & Hu & ->).
  eexists. split; [apply handleNavigation_after_URL; exact Hu|].
  unfold navigation_of.
  destruct (getHashPath (Some (pathname u))) as [[|c p]|];
    try (split; reflexivity).
  destruct (find (fun e => matchesb (c :: p) (fst e)) modalPaths)
    as [[pat name]|]; split; reflexivity.
Qed.

Lemma path_plain_fragment c :
  path_plain c = true -> fragment_set c = false.
Proof. each_ascii c; vm_compute; intro H; try discriminate; reflexivity. Qed.

Lemma fragment_state_plain s :
  forallb path_plain s = true -> fragment_state s = Returns s.
Proof.
  induction s as [|c s IH]; simpl; [reflexivity|].
  intro H. apply andb_true_iff in H. destruct H as [Hc Hs].
  destruct (path_plain_chars c Hc) as (_ & _ & _ & _ & _ & _).
  assert (non_ascii c = false) as ->
    by (revert Hc; each_ascii c; vm_compute; intro H; try discriminate;
        reflexivity).
  rewrite (IH Hs). unfold encode_with.
  rewrite (path_plain_fragment c Hc). reflexivity.
Qed.

Lemma filter_plain s :
  forallb path_plain s = true ->
  filter (fun c => negb (tab_or_newline c)) s = s.
Proof.
  induction s as [|c s IH]; simpl; [reflexivity|].
  intro H. apply andb_true_iff in H. destruct H as [Hc Hs].
  destruct (path_plain_chars c Hc) as (_ & _ & _ & _ & Ht & _).
  rewrite Ht, (IH Hs). reflexivity.
Qed.

Lemma pathName_navigation_of currentRoute hashPath searchParams :
  pathName (navigation_of currentRoute hashPath searchParams)
  = match hashPath with
    | Some (c :: p) => c :: p
    | _ => []
    end.
Proof.
  unfold navigation_of. destruct hashPath as [[|c p]|]; try reflexivity.
  destruct (find (fun e => matchesb (c :: p) (fst e)) modalPaths)
    as [[pat name]|]; reflexivity.
Qed.

(** X16.  Navigating to an internal route and handling the navigation give
    the route back.  For a route of plain path characters without dot
    segment that does not start with [/], given as a string or as an
    internal link, under an http(s) origin: [updateRoute] assigns one value
    to [window.location.hash], and once the hash is assigned
    [handleNavigation] returns the route as its path name (the empty route
    included: the hash is then ['#/settings-x']). *)
Theorem navigate_round_trip
    (location : WindowLocation) (currentRoute : option str)
    (route : str) (as_link : option OptionalFalse) :
  simple_base (protocol location ++ lit "//" ++ hostname location) = true ->
  forallb path_plain route = true ->
  no_dot_segments route = true ->
  starts_with_slash route = false ->
  exists value location' nav,
    updateRoute (internal route as_link) = [set_location_hash value]
    /\ assign_hash value location = Returns location'
    /\ hash location' = "#"%char :: value
    /\ handleNavigation location' currentRoute = Returns nav
    /\ pathName nav = route.
Proof.
  intros Hb Hp Hd Hs.
  exists (if is_empty route then lit "/settings-x"
          else lit "/settings-x/" ++ route).
  assert (Hupd : updateRoute (internal route as_link)
                 = [set_location_hash
                      (if is_empty route then lit "/settings-x"
                       else lit "/settings-x/" ++ route)]).
  { destruct as_link as [e|]; destruct route; reflexivity. }
  destruct route as [|c route].
  - eexists. eexists. split; [exact Hupd|].
    split; [reflexivity|]. split; [reflexivity|].
    split.
    + apply handleNavigation_after_URL. cbn [hash skipn protocol hostname].
      apply (new_URL_plain _ (lit "settings-x") None Hb); reflexivity.
    + reflexivity.
  - cbn [is_empty] in *.
    assert (Hv : forallb path_plain (lit "/settings-x/" ++ c :: route) = true).
    { rewrite forallb_app, Hp. reflexivity. }
    eexists. eexists. split; [exact Hupd|].
    split.
    { unfold assign_hash. change (lit "/settings-x/" ++ c :: route)
        with ("/"%char :: lit "settings-x/" ++ c :: route).
      cbn [Ascii.eqb Bool.eqb].
      change ("/"%char :: lit "settings-x/" ++ c :: route)
        with (lit "/settings-x/" ++ c :: route).
      rewrite (filter_plain _ Hv), (fragment_state_plain _ Hv).
      cbn [rbind].
      change (is_empty (lit "/settings-x/" ++ c :: route)) with false.
      cbv iota. reflexivity. }
    split; [reflexivity|].
    split.
    + apply handleNavigation_after_URL. cbn [hash skipn protocol hostname].
      assert (Hu : forallb path_plain (lit "settings-x/" ++ c :: route)
                   = true) by (rewrite forallb_app, Hp; reflexivity).
      pose proof (new_URL_plain _ (lit "settings-x/" ++ c :: route) None Hb
                    Hu Hd eq_refl eq_refl) as H.
      change (query_suffix None) with (@nil ascii) in H.
      rewrite app_nil_r in H. exact H.
    + cbn [pathname]. rewrite (getHashPath_settings _ Hp).
      apply pathName_navigation_of.
Qed.





Lemma str_eqb_refl a : str_eqb a a = true.
Proof. now apply str_eqb_eq. Qed.

Lemma same_modal_not_changing currentRoute c p sp path name pat :
  find (fun e => matchesb (c :: p) (fst e)) modalPaths = Some (path, name) ->
  In (pat, name) modalPaths ->
  matches (nullish currentRoute []) pat ->
  changingModal (navigation_of currentRoute (Some (c :: p)) sp) = Some false.
Proof.
  intros F Hin Hm. unfold navigation_of. rewrite F.
  assert (find (fun e => matchesb (nullish currentRoute []) (fst e)) modalPaths
          = Some (pat, name)) as ->.
  { apply find_only; auto. intros pat' Hin' Hm'. symmetry.
    apply (modalPaths_at_most_one (nullish currentRoute [])); auto.
    apply in_map_iff. exists (pat, name). auto. }
  apply find_some in F. destruct F as [Hin0 _].
  pose proof modalPaths_nonempty as Hne. rewrite forallb_forall in Hne.
  specialize (Hne _ Hin0). cbn [fst snd] in Hne.
  apply andb_true_iff in Hne. destruct Hne as [_ Hname].
  apply negb_true_iff in Hname. cbn [changingModal]. rewrite Hname.
  cbn [option_map snd same_name]. rewrite str_eqb_refl. reflexivity.
Qed.

Lemma handleNavigation_current_route_to_self location currentRoute nav :
  handleNavigation location currentRoute = Returns nav ->
  exists nav',
    handleNavigation location (Some (pathName nav)) = Returns nav'
    /\ pathName nav' = pathName nav
    /\ (forall m, modal nav' = Some m ->
          exists pat, In (pat, modalName m) modalPaths
                      /\ matches (nullish (Some (pathName nav)) []) pat).
Proof.
  intro H. apply handleNavigation_Returns in H. destruct H as (u & Hu & ->).
  eexists. split; [apply handleNavigation_after_URL; exact Hu|].
  rewrite !pathName_navigation_of. split; [reflexivity|].
  intros m Hm. unfold navigation_of in Hm.
  destruct (getHashPath (Some (pathname u))) as [[|c p]|]; try discriminate.
  destruct (find (fun e => matchesb (c :: p) (fst e)) modalPaths)
    as [[path name]|] eqn:F; [|discriminate].
  cbn [modal] in Hm.
  destruct (negb (is_empty path) && negb (is_empty name)); [|discriminate].
  inversion Hm; subst m. cbn [modalName nullish].
  apply find_some in F. destruct F as [Hin Hmb]. cbn [fst] in Hmb.
  exists path. split; [exact Hin|].
  apply matches_matchesb; [eapply modalPaths_In_plain; eauto|exact Hmb].
Qed.

(** X18.  The provider shows the loading state only for a change of modal:
    when the current route matches a pattern of the table that has the
    modal of the new hash, handling the hash change sets the route and
    leaves [loadingModal] as it is; in particular handling the same hash a
    second time changes nothing. *)
Theorem handleHashChange_same_modal location :
  (forall st nav,
     handleNavigation location (route st) = Returns nav ->
     (forall m, modal nav = Some m ->
        exists pat, In (pat, modalName m) modalPaths
                    /\ matches (nullish (route st) []) pat) ->
     handleHashChange location st
     = Returns {| route := Some (pathName nav);
                  loadingModal := loadingModal st |})
  /\ (forall st st',
        handleHashChange location st = Returns st' ->
        handleHashChange location st' = Returns st').
Proof.
  assert (Hfirst : forall st nav,
     handleNavigation location (route st) = Returns nav ->
     (forall m, modal nav = Some m ->
        exists pat, In (pat, modalName m) modalPaths
                    /\ matches (nullish (route st) []) pat) ->
     handleHashChange location st
     = Returns {| route := Some (pathName nav);
                  loadingModal := loadingModal st |}).
  { intros st nav H Hsame. unfold handleHashChange. rewrite H. cbn [rbind].
    f_equal. f_equal.
    destruct (modal nav) as [m|] eqn:Hm; [|reflexivity].
    destruct (Hsame m eq_refl) as (pat & Hin & Hmatch).
    apply handleNavigation_Returns in H. destruct H as (u & _ & ->).
    unfold navigation_of in Hm.
    destruct (getHashPath (Some (pathname u))) as [[|c p]|] eqn:G;
      try discriminate.
    destruct (find (fun e => matchesb (c :: p) (fst e)) modalPaths)
      as [[path name]|] eqn:F; [|discriminate].
    cbn [modal] in Hm.
    destruct (negb (is_empty path) && negb (is_empty name));
      [|discriminate].
    inversion Hm; subst m. cbn [modalName] in Hin.
    rewrite (same_modal_not_changing _ _ _ _ _ _ _ F Hin Hmatch).
    reflexivity. }
  split; [exact Hfirst|].
  intros st st' H. unfold handleHashChange in H.
  destruct (handleNavigation location (route st)) as [nav|e|] eqn:Hn;
    try discriminate.
  cbn [rbind] in H. inversion H as [Hst']. clear H.
  destruct (handleNavigation_current_route_to_self location (route st) nav Hn)
    as (nav' & Hn' & Hpath & Hsame).
  set (st1 := {| route := Some (pathName nav);
                 loadingModal :=
                   match modal nav, changingModal nav with
                   | Some _, Some true => true
                   | _, _ => loadingModal st
                   end |}) in *.
  rewrite (Hfirst st1 nav' Hn' Hsame). rewrite Hpath. reflexivity.
Qed.

(** ** The router on concrete inputs *)

Example matchRoute_slug :
  matchRoute (lit "users/show/bob") (lit "users/show/:slug")
  = Returns (Some [(lit "slug", lit "bob")])
  /\ matchRoute (lit "users/show") (lit "users/show/:slug") = Returns None
  /\ matchRoute (lit "users/show/bob/extra") (lit "users/show/:slug")
     = Returns None
  /\ matchRoute (lit "users/show/") (lit "users/show/:slug") = Returns None.
Proof. vm_compute. auto. Qed.

Example matchRoute_second_parameter_is_text :
  matchRoute (lit "a/x/y") (lit "a/:p/:q") = Returns None
  /\ matchRoute (lit "a/x/:q") (lit "a/:p/:q")
     = Returns (Some [(lit "p", lit "x")]).
Proof. vm_compute. auto. Qed.

Example new_URL_examples :
  new_URL (lit "/settings-x/users/invite?a=b#c") (lit "https://ghost.example")
  = Returns {| pathname := lit "/settings-x/users/invite";
               query := Some (lit "a=b") |}
  /\ new_URL (lit "/settings-x/a/./b/../c") (lit "http://localhost")
     = Returns {| pathname := lit "/settings-x/a/c"; query := None |}
  /\ new_URL (lit "/settings-x/{x}") (lit "http://localhost")
     = Returns {| pathname := lit "/settings-x/%7Bx%7D"; query := None |}
  /\ new_URL (lit "//other.example/settings-x/a") (lit "http://localhost")
     = Unmodelled.
Proof. vm_compute. auto. Qed.

Example handleNavigation_examples :
  handleNavigation (location_with "#/settings-x/general") None
  = Returns {| pathName := lit "general"; changingModal := None;
               modal := None |}
  /\ handleNavigation (location_with "#/settings-x/") (Some (lit "general"))
     = Returns {| pathName := []; changingModal := None; modal := None |}
  /\ handleNavigation (location_with "") None
     = Returns {| pathName := []; changingModal := None; modal := None |}
  /\ handleNavigation (location_with "#/settings-x/design/edit")
                      (Some (lit "design/edit/themes"))
     = Returns {| pathName := lit "design/edit"; changingModal := Some false;
                  modal :=
                    Some {| modalName := lit "DesignAndThemeModal";
                            props :=
                              {| RoutingModalProps.pathName := lit "design/edit";
                                 RoutingModalProps.params := Some [];
                                 RoutingModalProps.searchParams :=
                                   {| init := [] |} |} |} |}.
Proof. vm_compute. auto. Qed.

(** C9 fails as stated: a definition is spliced into a regular expression,
    so ['a.b'] matches ['axb'], and the parameter name [1] makes
    [new RegExp] throw for every pathname, matching or not. *)
Lemma matchRoute_counterexample :
  matchRoute (lit "axb") (lit "a.b") = Returns (Some [])
  /\ (forall bindings, ~ route_matches (lit "axb") (lit "a.b") bindings)
  /\ matchRoute (lit "users/bob") (lit "users/:1") = Throws SyntaxError
  /\ route_matches (lit "users/bob") (lit "users/:1") [(lit "1", lit "bob")]
  /\ matchRoute (lit "zzz") (lit "users/:1") = Throws SyntaxError.
Proof.
  split; [reflexivity|]. split; [|split; [reflexivity|split; [|reflexivity]]].
  - intros b [(_ & H & _)|(be & n & a & seg & Hp & _)].
    + discriminate.
    + apply parameter_at_find in Hp. discriminate.
  - right. exists (lit "users/"), (lit "1"), [], (lit "bob").
    repeat split; try discriminate.
    + apply find_param_None. reflexivity.
    + intros [H|[H|[H|[]]]]; discriminate.
Qed.

(** The pattern of the user modal. *)
Lemma matchRoute_plain_definition_witness :
  matchRoute (lit "users/show/bob") (lit "users/show/:slug")
  = Returns (Some [(lit "slug", lit "bob")])
  /\ exists r, matchRoute (lit "users/show") (lit "users/show/:slug") = Returns r.
Proof.
  split.
  - apply (matchRoute_plain_definition (lit "users/show/bob")
             (lit "users/show/:slug") eq_refl).
    right. exists (lit "users/show/"), (lit "slug"), [], (lit "bob").
    repeat split; try discriminate.
    + apply find_param_None. reflexivity.
    + intros [H|[H|[H|[]]]]; discriminate.
  - apply (matchRoute_plain_definition (lit "users/show")
             (lit "users/show/:slug") eq_refl).
Defined.

(** The three kinds of argument of [updateRoute]. *)
Lemma updateRoute_routes_witness :
  updateRoute (ToString (lit "users/invite"))
  = [set_location_hash (lit "/settings-x/users/invite")]
  /\ updateRoute (ToInternal {| InternalLink.isExternal := IsFalse;
                                InternalLink.route := [] |})
     = [set_location_hash (lit "/settings-x")]
  /\ updateRoute (ToExternal {| ExternalLink.route := lit "/posts";
                                ExternalLink.models := None |})
     = [externalNavigate {| ExternalLink.route := lit "/posts";
                            ExternalLink.models := None |}].
Proof.
  destruct updateRoute_routes as (He & Hs & _ & _ & Hi).
  split; [|split].
  - apply Hs. discriminate.
  - apply Hi. reflexivity.
  - apply He.
Defined.



(** A parameter named by a digit. *)
Lemma matchRoute_digit_parameter_throws_witness :
  find_param (lit "users/:1") = Some (lit "users/", lit "1", [])
  /\ matchRoute (lit "users/7") (lit "users/:1") = Throws SyntaxError.
Proof.
  split; [reflexivity|].
  apply (matchRoute_digit_parameter_throws
           (lit "users/7") (lit "users/:1") (lit "users/") (lit "1") []);
    reflexivity.
Defined.

(** The navigation to the user modal. *)
Lemma handleNavigation_modal_invariant_witness :
  exists nav,
    handleNavigation (location_with "#/settings-x/users/show/bob?tab=x") None
    = Returns nav
    /\ (forall m, modal nav = Some m ->
          pathName nav <> []
          /\ RoutingModalProps.pathName (props m) = pathName nav
          /\ (exists pat bindings,
                In (pat, modalName m) modalPaths
                /\ matchRoute (pathName nav) pat = Returns (Some bindings)
                /\ RoutingModalProps.params (props m) = Some bindings)
          /\ exists changing, changingModal nav = Some changing)
    /\ (pathName nav = [] -> modal nav = None)
    /\ (modal nav = None -> changingModal nav = None).
Proof.
  eexists. split; [reflexivity|].
  apply (handleNavigation_modal_invariant
           (location_with "#/settings-x/users/show/bob?tab=x") None).
  reflexivity.
Defined.

(** The same hash handled from no route and from the route [users]. *)
Lemma handleNavigation_current_route_irrelevant_witness :
  exists nav nav',
    handleNavigation (location_with "#/settings-x/users/invite") None
    = Returns nav
    /\ handleNavigation (location_with "#/settings-x/users/invite")
         (Some (lit "users"))
       = Returns nav'
    /\ pathName nav' = pathName nav
    /\ modal nav' = modal nav.
Proof.
  eexists.
  destruct (handleNavigation_current_route_irrelevant
              (location_with "#/settings-x/users/invite") None
              (Some (lit "users")) _ eq_refl) as (nav' & H).
  exists nav'. split; [reflexivity|exact H].
Defined.

(** The route of the invite modal, from an empty hash. *)
Lemma navigate_round_trip_witness :
  exists value location' nav,
    updateRoute (ToString (lit "users/invite")) = [set_location_hash value]
    /\ assign_hash value (location_with "") = Returns location'
    /\ hash location' = "#"%char :: value
    /\ handleNavigation location' None = Returns nav
    /\ pathName nav = lit "users/invite".
Proof.
  exact (navigate_round_trip (location_with "") None (lit "users/invite") None
           eq_refl eq_refl eq_refl eq_refl).
Defined.


End Routing.

(* ================================================================= *)
(** * labs.hbs *)

Module Labs.

Open Scope string_scope.
#[local] Set Warnings "-register-all".

(** ** Templates

    The template as a tree: elements with their tag and static class,
    text, component invocations with their arguments and block, values
    ([{{...}}]), and the blocks [{{#if}}] and [{{#each}}].  Attributes other
    than [class], modifiers and the conditional part of a class are left
    out. *)
Inductive Condition : Type :=
| Helper (name : string)      (* a helper call, as in (enable-developer-experiments) *)
| Property (path : string).   (* a property path, as in this.redirectSuccess *)

Inductive Node : Type :=
| Text (s : string)
| Value (expression : string)
| Elem (tag class : string) (children : list Node)
| Comp (name : string) (args : list (string * string)) (block : list Node)
| If (c : Condition) (thn els : list Node)
| Each (source : string) (body : list Node).

(** What is rendered: the same tree without blocks. *)
Inductive Html : Type :=
| HText (s : string)
| HValue (expression : string)
| HElem (tag class : string) (children : list Html)
| HComp (name : string) (args : list (string * string)) (block : list Html).

(** What a rendering depends on: the result of a helper, the truthiness of
    a property and the number of items of a list, the last two within the
    component instance that yields the block ([scope]: the [@paramName] of
    the enclosing [GhUploader], or the empty string). *)
Record Env : Type := mkEnv {
  helper : string -> bool;
  property : string -> string -> bool;
  items : string -> string -> nat
}.

Fixpoint lookup (key : string) (args : list (string * string)) : string :=
  match args with
  | [] => ""
  | (k, v) :: args' => if String.eqb k key then v else lookup key args'
  end.

(** The scope of the block of a component: [GhUploader] yields
    [uploader]. *)
Definition block_scope (scope name : string) (args : list (string * string))
  : string :=
  if String.eqb name "GhUploader" then lookup "@paramName" args else scope.

(** A path that starts with [this.] is read from the template's own
    context, whatever the block. *)
Definition owner (scope path : string) : string :=
  if String.prefix "this." path then "" else scope.

Fixpoint render (env : Env) (scope : string) (n : Node) : list Html :=
  match n with
  | Text s => [HText s]
  | Value e => [HValue e]
  | Elem tag class children =>
      [HElem tag class (flat_map (render env scope) children)]
  | Comp name args block =>
      [HComp name args
         (flat_map (render env (block_scope scope name args)) block)]
  | If c thn els =>
      let truthy :=
        match c with
        | Helper name => helper env name
        | Property path => property env (owner scope path) path
        end in
      if truthy then flat_map (render env scope) thn
      else flat_map (render env scope) els
  | Each source body =>
      List.concat (repeat (flat_map (render env scope) body)
                     (items env scope source))
  end.

(** ** The template *)

Definition header_with (title : string) (description : list Node) (action : Node)
  : Node :=
  Elem "div" "gh-expandable-header"
    [ Elem "div" ""
        [ Elem "h4" "gh-expandable-title" [Text title];
          Elem "p" "gh-expandable-description" description ];
      action ].

Definition block (content : Node) : Node :=
  Elem "div" "gh-expandable-block" [content].

(** A block with a feature-flag switch. *)
Definition flag_block (title description flag : string) : Node :=
  block (header_with title [Text description]
           (Elem "div" "for-switch"
              [Comp "GhFeatureFlag" [("@flag", flag)] []])).

Definition link_to (route class : string) (content : list Node) : Node :=
  Comp "LinkTo" [("@route", route); ("class", class)] content.

Definition canvas_header : Node :=
  Comp "GhCanvasHeader" [("class", "gh-canvas-header")]
    [ Elem "div" "flex flex-column"
        [ Elem "div" "gh-canvas-breadcrumb"
            [ link_to "settings" "" [Text "Settings"];
              Value "svg-jar arrow-right-small"; Text "Labs" ];
          Elem "h2" "gh-canvas-title" [Text "Labs"] ] ].

Definition migration_options : Node :=
  Elem "div" "gh-main-section"
    [ Elem "h4" "gh-main-section-header small bn" [Text "Migration options"];
      Elem "div" "gh-expandable"
        [ block (header_with "Import content"
                   [Text "Import posts from a JSON or zip file"]
                   (link_to "settings.labs.import" "gh-btn"
                      [Elem "span" "" [Text "Open Importer"]]));
          block (header_with "Export your content"
                   [Text "Download all of your posts and settings in a single, glorious JSON file"]
                   (Elem "button" "gh-btn" [Elem "span" "" [Text "Export"]]));
          block (header_with "Delete all content"
                   [Text "Permanently delete all posts and tags from the database, a hard reset"]
                   (Elem "button" "gh-btn gh-btn-red"
                      [Elem "span" "" [Text "Delete"]])) ] ].

(** The upload block shared by redirects and routes. *)
Definition upload_block (paramName uploadUrl title : string)
    (description : list Node) (success failure prompt download : string)
    (downloadLabel : string) : Node :=
  block
    (Comp "GhUploader" [("@uploadUrl", uploadUrl); ("@paramName", paramName)]
       [ header_with title description
           (Elem "div" "gh-setting-action flex flex-column items-end"
              [ If (Property "uploader.isUploading")
                  [Value "uploader.progressBar"]
                  [ Elem "button" "gh-btn gh-btn-icon"
                      [ Elem "span" ""
                          [ If (Property success)
                              [Value "svg-jar check-circle"; Text "Uploaded"]
                              [ If (Property failure)
                                  [Value "svg-jar retry"; Text "Upload Failed"]
                                  [Text prompt] ] ] ];
                    Elem "div" "" [Elem "a" "" [Text downloadLabel]] ];
                Each "uploader.errors"
                  [Elem "div" "gh-setting-error"
                     [Value "or error.context error.message"]];
                Elem "div" ""
                  [Comp "GhFileInput" [("data-test-file-input", paramName)] []]
              ]) ]).

Definition beta_features : Node :=
  Elem "div" "gh-main-section"
    [ Elem "h4" "gh-main-section-header small bn" [Text "Beta features"];
      Elem "div" "gh-expandable"
        [ block (header_with "Substack migrator"
                   [ Text "A "; Elem "a" "" [Text "step-by-step tool"];
                     Text " to easily import all your content, members and paid subscriptions" ]
                   (link_to "migrate" "gh-btn" [Elem "span" "" [Text "Open"]]));
          block (header_with "Portal translation"
                   [ Text "Translate your membership flows into your publication language (";
                     Elem "a" "" [Text "supported languages"];
                     Text "). Don’t see yours? ";
                     Elem "a" "" [Text "Get involved"] ]
                   (Elem "div" "for-switch"
                      [Comp "GhFeatureFlag" [("@flag", "i18n")] []]));
          upload_block "redirects" "/redirects/upload/" "Redirects"
            [ Text "Configure redirects for old or moved content, more info in ";
              Elem "a" "" [Text "the docs"] ]
            "this.redirectSuccess" "this.redirectFailure"
            "Upload redirects YAML/JSON" "redirects/download"
            "Download current redirects";
          upload_block "routes" "/settings/routes/yaml/" "Routes"
            [Text "Configure dynamic routing by modifying the routes.yaml file"]
            "this.routesSuccess" "this.routesFailure"
            "Upload routes YAML" "settings/routes/yaml"
            "Download current routes.yaml" ] ].

Definition alpha_features : Node :=
  Elem "div" "gh-main-section"
    [ Elem "h4" "gh-main-section-header small bn" [Text "Alpha Features"];
      Elem "div" "gh-expandable"
        [ flag_block "URL cache" "Enable URL Caching" "urlCache";
          flag_block "Lexical multiplayer"
            "Enables multiplayer editing in the lexical editor."
            "lexicalMultiplayer";
          flag_block "Webmentions"
            "Allows viewing received mentions on the dashboard." "webmentions";
          flag_block "Websockets"
            "Test out Websockets functionality at /ghost/#/websockets."
            "websockets";
          flag_block "Stripe Automatic Tax"
            "Use Stripe Automatic Tax at Stripe Checkout. Needs to be enabled in Stripe"
            "stripeAutomaticTax";
          flag_block "Email customization"
            "Adding more control over the newsletter template"
            "emailCustomization";
          flag_block "Collections" "Enables Collections 2.0" "collections";
          flag_block "Collections Card"
            "Enables the Collections Card for pages - requires Collections and the beta Editor to be enabled"
            "collectionsCard";
          flag_block "Admin X" "Enables Admin X, the new admin UI for Ghost"
            "adminXSettings";
          flag_block "Mail Events" "Enables processing of mail events"
            "mailEvents";
          flag_block "Lexical indicators"
            "Show L/M indicator on posts list for easier debugging"
            "lexicalIndicators";
          flag_block "Import Member Tier"
            "Enables tier to be specified when importing members"
            "importMemberTier";
          flag_block "Tips & donations"
            "Enables publishers to collect one-time payments"
            "tipsAndDonations";
          flag_block "Recommendations"
            "Enables publishers to recommend sites to their audience"
            "recommendations" ] ].

(** [labs.hbs] *)
Definition labs : Node :=
  Elem "section" "gh-canvas"
    [ canvas_header;
      Elem "section" "view-container settings-debug"
        [ Elem "p" "gh-box gh-box-tip"
            [ Value "svg-jar idea";
              Text "This is a testing ground for new or experimental features. They may change, break or inexplicably disappear at any time." ];
          migration_options;
          beta_features;
          If (Helper "enable-developer-experiments") [alpha_features] [] ] ].

(** ** What a rendered page shows *)

Fixpoint texts (h : Html) : list string :=
  match h with
  | HText s => [s]
  | HElem _ _ children => flat_map texts children
  | HComp _ _ children => flat_map texts children
  | HValue _ => []
  end.

(** The headers of the main sections. *)
Fixpoint section_headers (h : Html) : list string :=
  match h with
  | HElem tag class children =>
      if String.eqb tag "h4"
         && String.eqb class "gh-main-section-header small bn"
      then flat_map texts children
      else flat_map section_headers children
  | HComp _ _ children => flat_map section_headers children
  | HText _ | HValue _ => []
  end.

(** The flags of the feature-flag switches. *)
Fixpoint feature_flags (h : Html) : list string :=
  match h with
  | HElem _ _ children => flat_map feature_flags children
  | HComp name args children =>
      (if String.eqb name "GhFeatureFlag" then [lookup "@flag" args] else [])
      ++ flat_map feature_flags children
  | HText _ | HValue _ => []
  end.

(** The rendered page. *)
Definition page (env : Env) : list Html := render env "" labs.

Definition developer_experiments (env : Env) : bool :=
  helper env "enable-developer-experiments".

Definition alpha_flags : list string :=
  [ "urlCache"; "lexicalMultiplayer"; "webmentions"; "websockets";
    "stripeAutomaticTax"; "emailCustomization"; "collections";
    "collectionsCard"; "adminXSettings"; "mailEvents"; "lexicalIndicators";
    "importMemberTier"; "tipsAndDonations"; "recommendations" ].

Definition sample_env (dev : bool) : Env :=
  {| helper := fun _ => dev;
     property := fun scope path => String.eqb scope "routes";
     items := fun scope _ => if String.eqb scope "redirects" then 2%nat else 0%nat |}.

(** The values ([{{...}}]) of a rendered tree. *)
Fixpoint values (h : Html) : list string :=
  match h with
  | HValue e => [e]
  | HElem _ _ children => flat_map values children
  | HComp _ _ children => flat_map values children
  | HText _ => []
  end.

(** The number of elements of a class. *)
Fixpoint count_class (class : string) (h : Html) : nat :=
  match h with
  | HElem _ class' children =>
      ((if String.eqb class' class then 1 else 0)
       + list_sum (map (count_class class) children))%nat
  | HComp _ _ children => list_sum (map (count_class class) children)
  | HText _ | HValue _ => 0%nat
  end.

(** What the two upload blocks read: [uploader.isUploading] and
    [uploader.errors] of their own [GhUploader], and the four properties of
    the controller. *)
Definition isUploading (env : Env) (paramName : string) : bool :=
  property env paramName "uploader.isUploading".

Definition errors (env : Env) (paramName : string) : nat :=
  items env paramName "uploader.errors".

Definition redirectSuccess (env : Env) : bool :=
  property env "" "this.redirectSuccess".

Definition redirectFailure (env : Env) : bool :=
  property env "" "this.redirectFailure".

Definition routesSuccess (env : Env) : bool :=
  property env "" "this.routesSuccess".

Definition routesFailure (env : Env) : bool :=
  property env "" "this.routesFailure".

(** [text] is a text of the rendered page. *)
Definition shows (env : Env) (text : string) : Prop :=
  In text (flat_map texts (page env)).

Definition upload_env (uploading success failure : bool) (n : nat) : Env :=
  {| helper := fun _ => false;
     property := fun scope path =>
       if String.eqb path "uploader.isUploading" then uploading
       else if String.eqb path "this.redirectSuccess" then success
       else if String.eqb path "this.redirectFailure" then failure
       else false;
     items := fun _ _ => n |}.

(** ** Lemmas on rendering *)

Lemma flat_map_each {A B} (f : A -> list B) (l : list A) (n : nat) :
  flat_map f l = [] -> flat_map f (List.concat (repeat l n)) = [].
Proof.
  intro H. induction n as [|n IH]; simpl; [reflexivity|].
  rewrite flat_map_app, H, IH. reflexivity.
Qed.

Ltac split_conditions :=
  repeat match goal with
    | |- context [if property ?e ?s ?p then _ else _] =>
        destruct (property e s p)
    end.

Ltac show_page :=
  unfold page, developer_experiments;
  cbn [render labs canvas_header migration_options beta_features
       upload_block block header_with link_to flat_map app block_scope lookup
       owner String.prefix String.eqb Ascii.eqb Bool.eqb];
  split_conditions;
  match goal with
  | |- context [helper ?e ?n] => destruct (helper e n)
  end;
  cbn [section_headers feature_flags texts flat_map app andb
       String.eqb Ascii.eqb Bool.eqb lookup];
  rewrite ?flat_map_app, ?flat_map_each by reflexivity;
  reflexivity.

Lemma page_section_headers env :
  flat_map section_headers (page env)
  = "Migration options" :: "Beta features"
      :: (if developer_experiments env then ["Alpha Features"] else []).
Proof. show_page. Qed.

Lemma page_feature_flags env :
  flat_map feature_flags (page env)
  = "i18n" :: (if developer_experiments env then alpha_flags else []).
Proof. show_page. Qed.

(** ** The property *)

(** C6.  The rendered labs page contains the 'Alpha Features' section, and
    each of its fourteen feature-flag switches, if and only if
    [enable-developer-experiments] is true; the 'Migration options' and
    'Beta features' sections are rendered whatever it is. *)
Theorem labs_alpha_features_gated (env : Env) :
  (In "Alpha Features" (flat_map section_headers (page env))
   <-> developer_experiments env = true)
  /\ (forall flag, In flag alpha_flags ->
        (In flag (flat_map feature_flags (page env))
         <-> developer_experiments env = true))
  /\ In "Migration options" (flat_map section_headers (page env))
  /\ In "Beta features" (flat_map section_headers (page env)).
Proof.
  rewrite page_section_headers, page_feature_flags.
  assert (Hother : forall flag, In flag alpha_flags -> flag <> "i18n").
  { intros flag Hin ->. simpl in Hin.
    repeat (destruct Hin as [Hin|Hin]; [discriminate|]). exact Hin. }
  destruct (developer_experiments env).
  - split; [|split; [|split]].
    + split; [reflexivity|]. intros _. simpl. tauto.
    + intros flag Hin. split; [reflexivity|]. intros _. right. exact Hin.
    + simpl. tauto.
    + simpl. tauto.
  - split; [|split; [|split]].
    + split; [|discriminate]. intros [H|[H|[]]]; discriminate.
    + intros flag Hin. split; [|discriminate].
      intros [H|[]]. exfalso. apply (Hother flag Hin). auto.
    + simpl. tauto.
    + simpl. tauto.
Qed.

(** ** Further properties of the page *)

Lemma NoDup_nodup_eq (l : list string) :
  nodup string_dec l = l -> NoDup l.
Proof. intros <-. apply NoDup_nodup. Qed.

(** X19.  Whatever is rendered, no section header and no feature flag
    appears twice on the page, and the [i18n] switch of the beta section is
    always there. *)
Theorem page_switches_distinct (env : Env) :
  NoDup (flat_map section_headers (page env))
  /\ NoDup (flat_map feature_flags (page env))
  /\ In "i18n" (flat_map feature_flags (page env)).
Proof.
  rewrite page_section_headers, page_feature_flags.
  destruct (developer_experiments env).
  - split; [|split]; [apply NoDup_nodup_eq; reflexivity ..|left; reflexivity].
  - split; [|split]; [apply NoDup_nodup_eq; reflexivity ..|left; reflexivity].
Qed.

Lemma In_existsb (x : string) (l : list string) :
  In x l <-> existsb (String.eqb x) l = true.
Proof.
  rewrite existsb_exists. split.
  - intro H. exists x. split; [exact H|apply String.eqb_refl].
  - intros (y & H & E). apply String.eqb_eq in E. subst y. exact H.
Qed.

Ltac page_cases :=
  unfold shows, page, isUploading, redirectSuccess, redirectFailure,
    routesSuccess, routesFailure;
  cbn [render labs canvas_header migration_options beta_features
       upload_block block header_with link_to flat_map app block_scope lookup
       String.eqb Ascii.eqb Bool.eqb];
  repeat match goal with
    | |- context [owner ?s ?p] =>
        let v := eval vm_compute in (owner s p) in
        change (owner s p) with v
    end;
  split_conditions;
  match goal with
  | |- context [helper ?e ?n] => destruct (helper e n)
  end.

Ltac decide_shows :=
  rewrite !In_existsb;
  cbn [texts flat_map app];
  rewrite ?flat_map_app, ?flat_map_each by reflexivity;
  vm_compute;
  intuition (discriminate || reflexivity).

(** X20.  The button of an upload block shows one text: nothing while the
    uploader is uploading (the download link is then left out too), else
    ['Uploaded'] after a success, ['Upload Failed'] after a failure without
    success, and the prompt otherwise. *)
Theorem upload_button_states (env : Env) :
  (shows env "Upload redirects YAML/JSON"
   <-> isUploading env "redirects" = false
       /\ redirectSuccess env = false /\ redirectFailure env = false)
  /\ (shows env "Upload routes YAML"
      <-> isUploading env "routes" = false
          /\ routesSuccess env = false /\ routesFailure env = false)
  /\ (shows env "Uploaded"
      <-> (isUploading env "redirects" = false /\ redirectSuccess env = true)
          \/ (isUploading env "routes" = false /\ routesSuccess env = true))
  /\ (shows env "Upload Failed"
      <-> (isUploading env "redirects" = false
           /\ redirectSuccess env = false /\ redirectFailure env = true)
          \/ (isUploading env "routes" = false
              /\ routesSuccess env = false /\ routesFailure env = true))
  /\ (shows env "Download current redirects"
      <-> isUploading env "redirects" = false)
  /\ (shows env "Download current routes.yaml"
      <-> isUploading env "routes" = false).
Proof.
  repeat match goal with |- _ /\ _ => split end.
  all: page_cases; decide_shows.
Qed.

Lemma list_sum_each (f : Html -> nat) (l : list Html) (n : nat) :
  list_sum (map f (List.concat (repeat l n))) = (n * list_sum (map f l))%nat.
Proof.
  induction n as [|n IH]; simpl; [reflexivity|].
  rewrite map_app, list_sum_app, IH. reflexivity.
Qed.

Lemma count_occ_each (x : string) (l : list Html) (n : nat) :
  count_occ string_dec (flat_map values l) x = 0%nat ->
  count_occ string_dec (flat_map values (List.concat (repeat l n))) x = 0%nat.
Proof.
  intro H. induction n as [|n IH]; simpl; [reflexivity|].
  rewrite flat_map_app, count_occ_app, H, IH. reflexivity.
Qed.

Lemma list_sum_cons (a : nat) (l : list nat) :
  list_sum (a :: l) = (a + list_sum l)%nat.
Proof. reflexivity. Qed.

(** X21.  One error element is rendered for each error of each uploader,
    whether it is uploading or not, and one progress bar for each uploader
    that is uploading. *)
Theorem upload_errors_rendered (env : Env) :
  list_sum (map (count_class "gh-setting-error") (page env))
  = (errors env "redirects" + errors env "routes")%nat
  /\ count_occ string_dec (flat_map values (page env)) "uploader.progressBar"
     = ((if isUploading env "redirects" then 1 else 0)
        + (if isUploading env "routes" then 1 else 0))%nat.
Proof.
  split.
  - unfold errors. page_cases;
      cbn [count_class map flat_map app];
      repeat first [ rewrite map_app | rewrite list_sum_cons
                   | rewrite list_sum_app | rewrite list_sum_each ];
      cbn; lia.
  - page_cases;
      cbn [values flat_map app];
      repeat first [ rewrite count_occ_app
                   | rewrite flat_map_app
                   | rewrite count_occ_each by reflexivity
                   | rewrite count_occ_cons_eq by reflexivity
                   | rewrite count_occ_cons_neq by discriminate ];
      reflexivity.
Qed.

Example upload_after_success_and_failure :
  existsb (String.eqb "Uploaded")
    (flat_map texts (page (upload_env false true true 3))) = true
  /\ existsb (String.eqb "Upload Failed")
       (flat_map texts (page (upload_env false true true 3))) = false
  /\ list_sum (map (count_class "gh-setting-error")
                 (page (upload_env false true true 3))) = 6%nat
  /\ list_sum (map (count_class "gh-setting-error")
                 (page (upload_env true false false 3))) = 6%nat.
Proof. repeat split; reflexivity. Qed.

Example page_with_experiments :
  flat_map section_headers (page (sample_env true))
  = ["Migration options"; "Beta features"; "Alpha Features"]
  /\ flat_map feature_flags (page (sample_env true)) = "i18n" :: alpha_flags.
Proof. split; reflexivity. Qed.

Example page_without_experiments :
  flat_map section_headers (page (sample_env false))
  = ["Migration options"; "Beta features"]
  /\ flat_map feature_flags (page (sample_env false)) = ["i18n"].
Proof. split; reflexivity. Qed.

(** The page with and without developer experiments. *)
Lemma labs_alpha_features_gated_witness :
  In "Alpha Features" (flat_map section_headers (page (sample_env true)))
  /\ ~ In "Alpha Features" (flat_map section_headers (page (sample_env false)))
  /\ In "recommendations" (flat_map feature_flags (page (sample_env true)))
  /\ ~ In "recommendations" (flat_map feature_flags (page (sample_env false))).
Proof.
  destruct (labs_alpha_features_gated (sample_env true)) as (Ht & Hft & _).
  destruct (labs_alpha_features_gated (sample_env false)) as (Hf & Hff & _).
  assert (In "recommendations" alpha_flags) as Hin by (simpl; tauto).
  split; [apply Ht; reflexivity|].
  split; [intro H; apply Hf in H; discriminate|].
  split; [apply (Hft _ Hin); reflexivity|].
  intro H. apply (Hff _ Hin) in H. discriminate.
Defined.

End Labs.
